(** * A ledger of deposits, withdrawals and transfers over a relational store

    Shallow embedding of the banking API: the schema of
    [migrations/001_initial_schema.sql], the statements that
    [TransactionService] sends over its connection, the controller of
    [POST /api/transactions] and the global error handler.

    Modelling conventions.
    - Money is counted in hundredths, the scale of the [DECIMAL(15,2)]
      columns.  A stored amount or balance is a whole number of hundredths,
      a [Z], of at most fifteen digits.  The amount of a request is any
      JavaScript number that validation lets through, modelled by the
      rational it denotes, a [Q] of hundredths: [0.5] is half a cent.
      Arithmetic on it is exact, and every write to a decimal column rounds
      to the nearest hundredth, a half going away from zero.
    - Text columns compare under the collation of the schema
      ([utf8mb4_unicode_ci]); the model takes it as a component of the
      database, the function from a string to its weight string, and says
      nothing about it beyond that: two strings compare equal when their
      weight strings are equal.
    - The store enforces what the schema declares: the check constraint on
      [accounts.balance], the two foreign keys and the unique key of
      [transactions], and the range of the decimal columns (strict mode).
    - The service is written once, as a program over the statements it
      awaits on its connection ([Prog]).  [Store] runs such a program on one
      connection; [Concurrent] runs two of them step by step against one
      store.  A connection carries the committed database, the working
      copy of the open transaction, and the statements executed so far.
    - [uuidv4 ()] is an input of [submitTransaction]: the caller of the model
      supplies the identifier that the generator returned.  Transaction
      identifiers and failure reasons are compared as they are written:
      the generator returns lower-case text and the service writes five
      fixed reasons, on which the collation tells apart what differs.
    - The store-generated columns [id] and [created_at] of [transactions],
      and the timestamps of the other tables, are left out. *)

From Stdlib Require Import ZArith QArith Qround Lia Lqa.
From stdpp Require Import base option list strings gmap.

Local Open Scope string_scope.
Local Open Scope list_scope.
Local Open Scope Z_scope.

(** ** The schema *)

Module Schema.

Inductive TxType := deposit | withdrawal | transfer.
Inductive TxStatus := completed | failed.

Record User := mkUser {
  username : string;
  secret_key : string
}.

Record Account := mkAccount {
  account_number : string;
  user_id : positive;
  balance : Z
}.

Record TransactionRow := mkRow {
  row_transaction_id : string;
  row_type : TxType;
  row_amount : Z;
  row_source_account_id : option Z;
  row_destination_account_id : option Z;
  row_status : TxStatus;
  row_failure_reason : option string
}.

(** Primary keys are [BIGINT AUTO_INCREMENT]: positive numbers.  The
    tables are declared [COLLATE utf8mb4_unicode_ci]: [weight_string] is
    what [=] and the unique keys compare of a text value. *)
Record DB := mkDB {
  users : gmap positive User;
  accounts : gmap positive Account;
  transactions : list TransactionRow;
  weight_string : string -> string
}.

(** [DECIMAL(15,2)]: fifteen digits, two of them after the point. *)
Definition DECIMAL_MAX : Z := 999999999999999.

Definition decimal_15_2 (v : Z) : bool :=
  (- DECIMAL_MAX <=? v) && (v <=? DECIMAL_MAX).

(** What a [DECIMAL(15,2)] column stores of a number: the nearest
    hundredth, a half going away from zero. *)
Definition to_decimal (x : Q) : Z :=
  if Qle_bool 0 x then Qfloor (x + (1 # 2)) else Qceiling (x - (1 # 2)).

(** [balance + ?] as the column stores it; a debit is the same with the
    opposite sign. *)
Definition balance_plus (b : Z) (delta : Q) : Z :=
  to_decimal (inject_Z b + delta).

(** [CONSTRAINT chk_balance_non_negative CHECK (balance >= 0)] *)
Definition chk_balance_non_negative (b : Z) : bool := 0 <=? b.

(** [WHERE id = ?] on [accounts], the parameter being any number. *)
Definition account_by_id (m : gmap positive Account) (id : Z) : option Account :=
  match id with
  | Zpos p => m !! p
  | _ => None
  end.

(** [FOREIGN KEY (..) REFERENCES accounts(id)] on a nullable column. *)
Definition references_account (m : gmap positive Account) (ref : option Z) : bool :=
  match ref with
  | None => true
  | Some id => bool_decide (is_Some (account_by_id m id))
  end.

Definition with_balance (a : Account) (b : Z) : Account :=
  {| account_number := account_number a; user_id := user_id a; balance := b |}.

Definition with_accounts (d : DB) (m : gmap positive Account) : DB :=
  {| users := users d; accounts := m; transactions := transactions d;
     weight_string := weight_string d |}.

Definition with_transactions (d : DB) (l : list TransactionRow) : DB :=
  {| users := users d; accounts := accounts d; transactions := l;
     weight_string := weight_string d |}.

End Schema.
Export Schema.

(** ** Errors, statements and programs *)

Inductive SqlError :=
| ER_CHECK_CONSTRAINT_VIOLATED
| ER_WARN_DATA_OUT_OF_RANGE
| ER_DUP_ENTRY
| ER_NO_REFERENCED_ROW_2.

(** What a JavaScript [throw] can carry in this program. *)
Inductive Exn :=
| MysqlError (e : SqlError)
| TypeError
| PlainError (message : string)
| AppError (message : string) (statusCode : Z) (code : string).

Inductive Result (A : Type) :=
| Ok (a : A)
| Throw (e : Exn).
Arguments Ok {A} a.
Arguments Throw {A} e.

(** The calls made on a connection, indexed by what they resolve to. *)
Inductive Stmt : Type -> Type :=
| BeginTransaction : Stmt unit
| Commit : Stmt unit
| Rollback : Stmt unit
| SelectBalance (id : Z) : Stmt (list Z)
| UpdateBalance (delta : Q) (id : Z) : Stmt unit
| InsertTransaction (row : TransactionRow) : Stmt unit
| SelectTransaction (tid : string) : Stmt (list TransactionRow).

Definition Logged : Type := { X : Type & Stmt X }.

Definition stmt {X} (s : Stmt X) : Logged := existT X s.

(** An [async] function body: it returns, throws, or awaits a statement
    and goes on with what the promise settles to. *)
Inductive Prog (A : Type) : Type :=
| Ret (a : A)
| Raise (e : Exn)
| Do {X : Type} (s : Stmt X) (k : Result X -> Prog A).
Arguments Ret {A} a.
Arguments Raise {A} e.
Arguments Do {A X} s k.

(** [await connection.execute (..)]: a rejection is rethrown. *)
Definition execute {X} (s : Stmt X) : Prog X :=
  Do s (fun r => match r with Ok x => Ret x | Throw e => Raise e end).

Fixpoint bind {A B} (p : Prog A) (k : A -> Prog B) : Prog B :=
  match p with
  | Ret a => k a
  | Raise e => Raise e
  | Do s h => Do s (fun r => bind (h r) k)
  end.

(** [try { p } catch (error) { handler error }] *)
Fixpoint try_catch {A} (p : Prog A) (handler : Exn -> Prog A) : Prog A :=
  match p with
  | Ret a => Ret a
  | Raise e => handler e
  | Do s h => Do s (fun r => try_catch (h r) handler)
  end.

Notation "x <- m ;; k" := (bind m (fun x => k))
  (at level 100, m at next level, right associativity).
Notation "m ;;; k" := (bind m (fun _ => k))
  (at level 100, right associativity).

(** ** One connection *)

Record Conn := mkConn {
  committed : DB;
  working : DB;
  log : list Logged
}.

Definition logged {X} (s : Stmt X) (c : Conn) : Conn :=
  {| committed := committed c; working := working c; log := log c ++ [stmt s] |}.

Definition with_working (c : Conn) (d : DB) : Conn :=
  {| committed := committed c; working := d; log := log c |}.

Module Store.

Definition getConnection (d : DB) : Conn :=
  {| committed := d; working := d; log := [] |}.

(** [SELECT balance FROM accounts WHERE id = ?] *)
Definition select_balance (d : DB) (id : Z) : list Z :=
  option_list (balance <$> account_by_id (accounts d) id).

(** [UPDATE accounts SET balance = balance + ? WHERE id = ?]; the
    subtraction of the source is the same statement with the opposite
    sign.  No matching row: nothing happens.  The sum is rounded to the
    scale of the column.  A new value the column cannot hold, or one that
    breaks the check constraint, fails the statement and leaves the row as
    it was. *)
Definition update_balance (d : DB) (delta : Q) (id : Z) : Result unit * DB :=
  match id with
  | Zpos p =>
      match accounts d !! p with
      | None => (Ok tt, d)
      | Some a =>
          let b := balance_plus (balance a) delta in
          if negb (decimal_15_2 b) then
            (Throw (MysqlError ER_WARN_DATA_OUT_OF_RANGE), d)
          else if negb (chk_balance_non_negative b) then
            (Throw (MysqlError ER_CHECK_CONSTRAINT_VIOLATED), d)
          else
            (Ok tt, with_accounts d (<[p := with_balance a b]> (accounts d)))
      end
  | _ => (Ok tt, d)
  end.

Definition has_transaction_id (l : list TransactionRow) (tid : string) : bool :=
  existsb (fun r => String.eqb (row_transaction_id r) tid) l.

(** [INSERT INTO transactions (..) VALUES (..)] *)
Definition insert_transaction (d : DB) (row : TransactionRow) : Result unit * DB :=
  if negb (decimal_15_2 (row_amount row)) then
    (Throw (MysqlError ER_WARN_DATA_OUT_OF_RANGE), d)
  else if has_transaction_id (transactions d) (row_transaction_id row) then
    (Throw (MysqlError ER_DUP_ENTRY), d)
  else if negb (references_account (accounts d) (row_source_account_id row)
                && references_account (accounts d) (row_destination_account_id row)) then
    (Throw (MysqlError ER_NO_REFERENCED_ROW_2), d)
  else
    (Ok tt, with_transactions d (transactions d ++ [row])).

(** [SELECT * FROM transactions WHERE transaction_id = ?] *)
Definition select_transaction (d : DB) (tid : string) : list TransactionRow :=
  filter (fun r => row_transaction_id r = tid) (transactions d).

(** One statement on a connection that nobody else uses. *)
Definition exec {X} (s : Stmt X) (c : Conn) : Result X * Conn :=
  match s in Stmt X return Result X * Conn with
  | BeginTransaction => (Ok tt, with_working c (committed c))
  | Commit =>
      (Ok tt, {| committed := working c; working := working c; log := log c |})
  | Rollback => (Ok tt, with_working c (committed c))
  | SelectBalance id => (Ok (select_balance (working c) id), c)
  | UpdateBalance delta id =>
      let r := update_balance (working c) delta id in
      (r.1, with_working c r.2)
  | InsertTransaction row =>
      let r := insert_transaction (working c) row in
      (r.1, with_working c r.2)
  | SelectTransaction tid => (Ok (select_transaction (working c) tid), c)
  end.

Fixpoint run {A} (p : Prog A) (c : Conn) : Result A * Conn :=
  match p with
  | Ret a => (Ok a, c)
  | Raise e => (Throw e, c)
  | Do s k => let r := exec s (logged s c) in run (k r.1) r.2
  end.

(** Take a connection from the pool, run [p] on it, release it. *)
Definition serve {A} (p : Prog A) (d : DB) : Result A * Conn :=
  run p (getConnection d).

End Store.

(** ** [model/transaction.ts] *)

(** [amount] is a JavaScript number: any rational count of hundredths. *)
Record CreateTransactionData := mkData {
  type : TxType;
  amount : Q;
  source_account_id : option Z;
  destination_account_id : option Z
}.

Record Transaction := mkTransaction {
  transaction_id : string;
  tx_type : TxType;
  tx_amount : Z;
  tx_source_account_id : option Z;
  tx_destination_account_id : option Z;
  status : TxStatus;
  failure_reason : option string
}.

Record AccountSummary := mkAccountSummary {
  account_id : positive;
  summary_account_number : string;
  summary_username : option string;
  current_balance : Z;
  largest_transaction : Z
}.

Record FailedTransactionSummary := mkFailedSummary {
  reason : string;
  count : nat
}.

Record SummaryReport := mkReport {
  report_accounts : list AccountSummary;
  failed_transactions : list FailedTransactionSummary
}.

(** An optional number under JavaScript's truthiness: [undefined] and [0]
    are both falsy.  [present v] is [v || null]; [!v] is [present v = None]. *)
Definition present (v : option Z) : option Z :=
  match v with
  | Some id => if id =? 0 then None else Some id
  | None => None
  end.

(** ** [TransactionService]: money movement *)

Module TransactionService.

Definition checkSufficientBalance (accountId : Z) (amount : Q) : Prog bool :=
  accounts <- execute (SelectBalance accountId) ;;
  match accounts with
  | [] => Ret false
  | balance0 :: _ => Ret (Qle_bool amount (inject_Z balance0))
  end.

Definition processDeposit (accountId : Z) (amount : Q) : Prog unit :=
  execute (UpdateBalance amount accountId).

Definition processWithdrawal (accountId : Z) (amount : Q) : Prog unit :=
  execute (UpdateBalance (- amount) accountId).

Definition processTransfer (sourceId destinationId : Z) (amount : Q) : Prog unit :=
  execute (UpdateBalance (- amount) sourceId) ;;;
  execute (UpdateBalance amount destinationId).

Definition mapRowToTransaction (row : TransactionRow) : Transaction :=
  {| transaction_id := row_transaction_id row;
     tx_type := row_type row;
     tx_amount := row_amount row;
     tx_source_account_id := row_source_account_id row;
     tx_destination_account_id := row_destination_account_id row;
     status := row_status row;
     failure_reason := row_failure_reason row |}.

(** The amount check and the [switch] on the type; the value is what the
    variables [status] and [failureReason] hold afterwards. *)
Definition validateAndProcess (data : CreateTransactionData)
  : Prog (TxStatus * option string) :=
  if Qle_bool (amount data) 0 then
    Ret (failed, Some "Negative or zero amount not allowed")
  else
    match type data with
    | deposit =>
        match present (destination_account_id data) with
        | None => Ret (failed, Some "Destination account required for deposit")
        | Some dst =>
            processDeposit dst (amount data) ;;;
            Ret (completed, None)
        end
    | withdrawal =>
        match present (source_account_id data) with
        | None => Ret (failed, Some "Source account required for withdrawal")
        | Some src =>
            hasBalance <- checkSufficientBalance src (amount data) ;;
            if negb hasBalance then Ret (failed, Some "Insufficient funds")
            else
              processWithdrawal src (amount data) ;;;
              Ret (completed, None)
        end
    | transfer =>
        match present (source_account_id data),
              present (destination_account_id data) with
        | Some src, Some dst =>
            hasBalance <- checkSufficientBalance src (amount data) ;;
            if negb hasBalance then Ret (failed, Some "Insufficient funds")
            else
              processTransfer src dst (amount data) ;;;
              Ret (completed, None)
        | _, _ =>
            Ret (failed,
                 Some "Both source and destination accounts required for transfer")
        end
    end.

(** The row that the [INSERT] stores for the parameters of the request:
    the amount as the [DECIMAL(15,2)] column takes it, an absent reference
    as [NULL]. *)
Definition newRow (data : CreateTransactionData) (transactionId : string)
    (st : TxStatus) (failureReason : option string) : TransactionRow :=
  {| row_transaction_id := transactionId;
     row_type := type data;
     row_amount := to_decimal (amount data);
     row_source_account_id := present (source_account_id data);
     row_destination_account_id := present (destination_account_id data);
     row_status := st;
     row_failure_reason := failureReason |}.

(** Insert the record, commit, fetch the created transaction. *)
Definition insertAndFetch (data : CreateTransactionData) (transactionId : string)
    (st : TxStatus) (failureReason : option string) : Prog Transaction :=
  execute (InsertTransaction (newRow data transactionId st failureReason)) ;;;
  execute Commit ;;;
  rows <- execute (SelectTransaction transactionId) ;;
  match rows with
  | transactionRow :: _ => Ret (mapRowToTransaction transactionRow)
  | [] => Raise TypeError
  end.

(** The [try] block. *)
Definition submitBody (data : CreateTransactionData) (transactionId : string)
  : Prog Transaction :=
  execute BeginTransaction ;;;
  outcome <- validateAndProcess data ;;
  insertAndFetch data transactionId outcome.1 outcome.2.

(** [try { .. } catch (error) { await connection.rollback (); throw error }] *)
Definition submitTransaction (data : CreateTransactionData)
    (transactionId : string) : Prog Transaction :=
  try_catch (submitBody data transactionId)
    (fun error => execute Rollback ;;; Raise error).

(** [SELECT balance FROM accounts WHERE id = ?], on the pool. *)
Definition getAccountBalance (accountId : Z) (d : DB) : Result Z :=
  match Store.select_balance d accountId with
  | [] => Throw (PlainError "Account not found")
  | b :: _ => Ok b
  end.

End TransactionService.

(** ** Requests handled one after the other *)

Module Sequential.
Import Store TransactionService.

Definition submit (data : CreateTransactionData) (transactionId : string)
    (d : DB) : Result Transaction * Conn :=
  serve (submitTransaction data transactionId) d.

(** The database that later requests see. *)
Definition after (data : CreateTransactionData) (transactionId : string)
    (d : DB) : DB :=
  committed (submit data transactionId d).2.

Definition submitAll (ops : list (CreateTransactionData * string)) (d : DB) : DB :=
  foldl (fun d op => after op.1 op.2 d) d ops.

End Sequential.

(** ** The relational operators of the report queries *)

Module Sql.

(** [l LEFT JOIN r ON on]: a row of [l] without a partner is kept, with
    [NULL] on the right. *)
Definition left_join {A B} (on : A -> B -> bool) (l : list A) (r : list B)
  : list (A * option B) :=
  l ≫= (fun a =>
          match filter (fun b => on a b) r with
          | [] => [(a, None)]
          | partners => (fun b => (a, Some b)) <$> partners
          end).

(** [GROUP BY key]: one group per distinct key. *)
Definition group_by {A K} `{EqDecision K} (key : A -> K) (rows : list A)
  : list (K * list A) :=
  (fun k => (k, filter (fun r => key r = k) rows)) <$> remove_dups (key <$> rows).

(** [MAX] skips [NULL]s and is [NULL] over no value at all. *)
Definition MAX (l : list (option Z)) : option Z :=
  foldr (fun v acc =>
           match v, acc with
           | Some x, Some y => Some (Z.max x y)
           | Some x, None => Some x
           | None, _ => acc
           end) None l.

Definition COALESCE (v : option Z) (d : Z) : Z := default d v.

End Sql.

#[global] Instance TxStatus_eq_dec : EqDecision TxStatus.
Proof. solve_decision. Defined.

#[global] Instance TxType_eq_dec : EqDecision TxType.
Proof. solve_decision. Defined.

(** ** [TransactionService]: the summary report *)

Module Report.
Import Sql.

Definition JoinedRow : Type :=
  (positive * Account) * option (positive * User) * option TransactionRow.

(** [ON (a.id = t.source_account_id OR a.id = t.destination_account_id)
        AND t.status = 'completed'] *)
Definition on_transaction (a_id : positive) (t : TransactionRow) : bool :=
  (bool_decide (row_source_account_id t = Some (Zpos a_id))
   || bool_decide (row_destination_account_id t = Some (Zpos a_id)))
  && bool_decide (row_status t = completed).

Definition joined (d : DB) : list JoinedRow :=
  left_join (fun au t => on_transaction au.1.1 t)
    (left_join (fun a u => bool_decide (user_id a.2 = u.1))
       (map_to_list (accounts d)) (map_to_list (users d)))
    (transactions d).

(** [GROUP BY a.id, a.account_number, u.username, a.balance] *)
Definition group_key (r : JoinedRow) : positive * string * option string * Z :=
  (r.1.1.1, account_number r.1.1.2, (fun u => username u.2) <$> r.1.2, balance r.1.1.2).

Definition summarise
    (g : positive * string * option string * Z * list JoinedRow) : AccountSummary :=
  {| account_id := g.1.1.1.1;
     summary_account_number := g.1.1.1.2;
     summary_username := g.1.1.2;
     current_balance := g.1.2;
     largest_transaction :=
       COALESCE (MAX ((fun r : JoinedRow => row_amount <$> r.2) <$> g.2)) 0 |}.

Definition accountRows (d : DB) : list AccountSummary :=
  summarise <$> group_by group_key (joined d).

(** [SELECT failure_reason, COUNT( * ) FROM transactions
     WHERE status = 'failed' AND failure_reason IS NOT NULL
     GROUP BY failure_reason] *)
Definition failedRows (d : DB) : list FailedTransactionSummary :=
  (fun g => {| reason := g.1; count := length g.2 |})
  <$> group_by (fun r : string => r)
        (omap row_failure_reason
           (filter (fun t => row_status t = failed) (transactions d))).

Definition getSummaryReport (d : DB) : SummaryReport :=
  {| report_accounts := accountRows d; failed_transactions := failedRows d |}.

End Report.

(** ** [AccountService], [UserService] *)

Module AccountService.

(** [SELECT .. FROM accounts WHERE id = ?]; [null] when there is no row. *)
Definition findById (id : Z) (d : DB) : option Account :=
  account_by_id (accounts d) id.

(** [SELECT .. FROM accounts WHERE account_number = ?], the first row or
    [null] when there is none; the comparison is the collation's.  The
    account comes with its [id]. *)
Definition findByAccountNumber (accountNumber : string) (d : DB)
  : option (positive * Account) :=
  head (filter (fun pa : positive * Account =>
                  weight_string d (account_number pa.2)
                  = weight_string d accountNumber)
          (map_to_list (accounts d))).

End AccountService.

Record AuthUser := mkAuthUser {
  auth_id : positive;
  auth_user : User
}.

Module UserService.

(** [SELECT .. FROM users WHERE secret_key = ? LIMIT 1]; the comparison
    is the collation's. *)
Definition findBySecretKey (secretKey : string) (d : DB) : option AuthUser :=
  (fun u => mkAuthUser u.1 u.2)
  <$> head (filter (fun u : positive * User =>
                      weight_string d (secret_key u.2)
                      = weight_string d secretKey)
              (map_to_list (users d))).

End UserService.

(** ** [middleware/]: authentication, validation, the error handler *)

Inductive Body :=
| Created (data : Transaction)
| ErrorJson (error : string) (message : string).

Record Response := mkResponse {
  res_status : Z;
  res_body : Body
}.

Record Request := mkRequest {
  user : option AuthUser;
  body : CreateTransactionData
}.

(** The text the database driver puts in [error.message]. *)
Definition sqlMessage (e : SqlError) : string :=
  match e with
  | ER_CHECK_CONSTRAINT_VIOLATED => "Check constraint 'chk_balance_non_negative' is violated."
  | ER_WARN_DATA_OUT_OF_RANGE => "Out of range value for column"
  | ER_DUP_ENTRY => "Duplicate entry for key 'transactions.transaction_id'"
  | ER_NO_REFERENCED_ROW_2 => "Cannot add or update a child row: a foreign key constraint fails"
  end.

Definition message_of (e : Exn) : string :=
  match e with
  | MysqlError q => sqlMessage q
  | TypeError => "Cannot read properties of undefined"
  | PlainError m => m
  | AppError m _ _ => m
  end.

Definition statusCode_of (e : Exn) : option Z :=
  match e with
  | AppError _ sc _ => Some sc
  | _ => None
  end.

Definition code_of (e : Exn) : option string :=
  match e with
  | AppError _ _ c => Some c
  | MysqlError ER_CHECK_CONSTRAINT_VIOLATED => Some "ER_CHECK_CONSTRAINT_VIOLATED"
  | MysqlError ER_WARN_DATA_OUT_OF_RANGE => Some "ER_WARN_DATA_OUT_OF_RANGE"
  | MysqlError ER_DUP_ENTRY => Some "ER_DUP_ENTRY"
  | MysqlError ER_NO_REFERENCED_ROW_2 => Some "ER_NO_REFERENCED_ROW_2"
  | _ => None
  end.

(** [new AppError (message, statusCode = 500, code = 'INTERNAL_ERROR')] *)
Definition newAppError (message : string) (statusCode : Z) : Exn :=
  AppError message statusCode "INTERNAL_ERROR".

Module Middleware.

(** [auth.ts]: the [X-Secret-Key] header, or a 401 answer. *)
Definition authenticateUser (secretKey : option string) (d : DB)
  : Response + AuthUser :=
  match secretKey with
  | None | Some "" =>
      inl {| res_status := 401;
             res_body := ErrorJson "Authentication required"
                           "X-Secret-Key header is missing" |}
  | Some key =>
      match UserService.findBySecretKey key d with
      | None =>
          inl {| res_status := 401;
                 res_body := ErrorJson "Authentication failed" "Invalid secret key" |}
      | Some u => inr u
      end
  end.

(** A field that the schema declares
    [Joi.number ().integer ().positive ()], required or forbidden. *)
Definition field_ok (required : bool) (v : option Z) : bool :=
  match v with
  | Some id => required && (0 <? id)
  | None => negb required
  end.

(** [schemas.transaction], on a body whose [type] is one of the three
    strings and whose [amount] is a number. *)
Definition schemas_transaction (b : CreateTransactionData) : bool :=
  field_ok (bool_decide (type b = withdrawal) || bool_decide (type b = transfer))
    (source_account_id b)
  && field_ok (bool_decide (type b = deposit) || bool_decide (type b = transfer))
       (destination_account_id b).

(** [validate (schemas.transaction, 'body')]; the messages of the
    violated rules, which follow the prefix, are not modelled. *)
Definition validate (b : CreateTransactionData) : Result unit :=
  if schemas_transaction b then Ok tt
  else Throw (AppError "Validation error: " 400 "VALIDATION_ERROR").

(** [error.ts] *)
Definition errorHandler (error : Exn) : Response :=
  let statusCode :=
    match statusCode_of error with
    | Some sc => if sc =? 0 then 500 else sc
    | None => 500
    end in
  let message :=
    if String.eqb (message_of error) "" then "Internal server error"
    else message_of error in
  let code :=
    match code_of error with
    | Some c => if String.eqb c "" then "INTERNAL_ERROR" else c
    | None => "INTERNAL_ERROR"
    end in
  let m := message_of error in
  let '(statusCode, code) :=
    if String.eqb m "Username already exists" then (409, "USERNAME_EXISTS")
    else if String.eqb m "Account number already exists" then (409, "ACCOUNT_EXISTS")
    else if String.eqb m "User does not exist" then (404, "USER_NOT_FOUND")
    else if String.eqb m "Insufficient funds" then (400, "INSUFFICIENT_FUNDS")
    else if String.eqb m "Source account not found" then
      (404, "SOURCE_ACCOUNT_NOT_FOUND")
    else if String.eqb m "Destination account not found" then
      (404, "DESTINATION_ACCOUNT_NOT_FOUND")
    else if String.eqb m "Account not found" then (404, "ACCOUNT_NOT_FOUND")
    else (statusCode, code) in
  {| res_status := statusCode; res_body := ErrorJson code message |}.

End Middleware.

(** The [data] of a balance answer, sent with status 200. *)
Record BalanceData := mkBalanceData {
  data_account_id : Z;
  data_balance : Z
}.

(** ** [TransactionController] and the route *)

Module TransactionController.

(** The ownership check on one referenced account. *)
Definition checkAccount (notFound unauthorized : string) (req : Request)
    (id : Z) (d : DB) : Result unit :=
  match AccountService.findById id d with
  | None => Throw (newAppError notFound 404)
  | Some account =>
      match user req with
      | None => Throw (newAppError unauthorized 403)
      | Some u =>
          if bool_decide (user_id account = auth_id u) then Ok tt
          else Throw (newAppError unauthorized 403)
      end
  end.

(** The [try] block of the handler. *)
Definition submitBody (req : Request) (transactionId : string) (d : DB)
  : Result Response * DB :=
  let source_ok :=
    match present (source_account_id (body req)) with
    | Some src =>
        checkAccount "Source account not found"
          "Unauthorized access to source account" req src d
    | None => Ok tt
    end in
  match source_ok with
  | Throw e => (Throw e, d)
  | Ok _ =>
      let destination_ok :=
        match present (destination_account_id (body req)), type (body req) with
        | Some dst, deposit =>
            checkAccount "Destination account not found"
              "Unauthorized access to destination account" req dst d
        | _, _ => Ok tt
        end in
      match destination_ok with
      | Throw e => (Throw e, d)
      | Ok _ =>
          let r := Sequential.submit (body req) transactionId d in
          match r.1 with
          | Ok transaction =>
              (Ok {| res_status := 201; res_body := Created transaction |},
               committed r.2)
          | Throw e => (Throw e, committed r.2)
          end
      end
  end.

(** [catch (error) { if (error instanceof Error)
                       throw new AppError (error.message, 400); throw error }]:
    everything thrown here is an [Error], [AppError] included. *)
Definition submitTransaction (req : Request) (transactionId : string) (d : DB)
  : Result Response * DB :=
  match submitBody req transactionId d with
  | (Ok res, d') => (Ok res, d')
  | (Throw error, d') => (Throw (newAppError (message_of error) 400), d')
  end.

(** [getAccountBalance] of this controller: no look at the owner.  The
    parameter is what [parseInt] made of [req.params.accountId], [None]
    standing for [NaN]. *)
Definition getAccountBalance (accountId : option Z) (d : DB) : Result BalanceData :=
  let attempt :=
    match accountId with
    | None => Throw (newAppError "Invalid account ID" 400)
    | Some id =>
        match TransactionService.getAccountBalance id d with
        | Ok b => Ok {| data_account_id := id; data_balance := b |}
        | Throw e => Throw e
        end
    end in
  match attempt with
  | Ok data => Ok data
  | Throw error =>
      if String.eqb (message_of error) "Account not found"
      then Throw (newAppError "Account not found" 404)
      else Throw (newAppError (message_of error) 400)
  end.

End TransactionController.

(** ** [AccountController] *)

Module AccountController.

(** The [try] block of the handler. *)
Definition getAccountBalanceBody (caller : option AuthUser)
    (accountId : option Z) (d : DB) : Result BalanceData :=
  match accountId with
  | None => Throw (newAppError "Invalid account ID" 400)
  | Some id =>
      match AccountService.findById id d with
      | None => Throw (newAppError "Account not found" 404)
      | Some account =>
          match caller with
          | None => Throw (newAppError "Unauthorized access to account" 403)
          | Some u =>
              if bool_decide (user_id account = auth_id u) then
                match TransactionService.getAccountBalance id d with
                | Ok b => Ok {| data_account_id := id; data_balance := b |}
                | Throw e => Throw e
                end
              else Throw (newAppError "Unauthorized access to account" 403)
          end
      end
  end.

(** [catch (error) { if (error.message === "Account not found")
                       throw new AppError ("Account not found", 404);
                     throw new AppError (error.message, 400) }] *)
Definition getAccountBalance (caller : option AuthUser)
    (accountId : option Z) (d : DB) : Result BalanceData :=
  match getAccountBalanceBody caller accountId d with
  | Ok data => Ok data
  | Throw error =>
      if String.eqb (message_of error) "Account not found"
      then Throw (newAppError "Account not found" 404)
      else Throw (newAppError (message_of error) 400)
  end.

End AccountController.

Module Route.
Import Middleware.

(** [POST /api/transactions]: authentication, validation, the handler
    under [asyncHandler], and [errorHandler] for whatever is thrown. *)
Definition postTransaction (secretKey : option string)
    (b : CreateTransactionData) (transactionId : string) (d : DB)
  : Response * DB :=
  match authenticateUser secretKey d with
  | inl res => (res, d)
  | inr u =>
      match validate b with
      | Throw e => (errorHandler e, d)
      | Ok _ =>
          match TransactionController.submitTransaction
                  {| user := Some u; body := b |} transactionId d with
          | (Ok res, d') => (res, d')
          | (Throw e, d') => (errorHandler e, d')
          end
      end
  end.

(** The text of [:accountId] is read twice: by Joi, which converts it to
    a number for [schemas.accountId] and does not write the number back
    ([as_number], [None] when the text is no integer), and by [parseInt] in
    the controller ([as_parseInt], [None] for [NaN]). *)
Record AccountIdParam := mkParam {
  as_number : option Z;
  as_parseInt : option Z
}.

(** [schemas.accountId]: [Joi.number ().integer ().positive ().required ()] *)
Definition schemas_accountId (accountId : option Z) : bool :=
  match accountId with
  | Some id => 0 <? id
  | None => false
  end.

(** [GET /api/accounts/:accountId/balance]: authentication, validation of
    the parameter, [AccountController.getAccountBalance] under
    [asyncHandler], and [errorHandler].  [inr] is the answer with status
    200. *)
Definition getBalance (secretKey : option string) (accountId : AccountIdParam)
    (d : DB) : Response + BalanceData :=
  match authenticateUser secretKey d with
  | inl res => inl res
  | inr u =>
      if schemas_accountId (as_number accountId) then
        match AccountController.getAccountBalance (Some u)
                (as_parseInt accountId) d with
        | Ok data => inr data
        | Throw e => inl (errorHandler e)
        end
      else inl (errorHandler (AppError "Validation error: " 400 "VALIDATION_ERROR"))
  end.

End Route.

(** ** [utils/database.ts]: the transaction helper *)

Module Database.

(** [db.transaction (callback)]: begin, run the callback on the
    connection, commit and return its result; on any error roll back and
    rethrow. *)
Definition transaction {A} (callback : Prog A) : Prog A :=
  try_catch
    (execute BeginTransaction ;;;
     result <- callback ;;
     execute Commit ;;;
     Ret result)
    (fun error => execute Rollback ;;; Raise error).

(** Statements that read or write data, as opposed to those that open or
    close a transaction. *)
Definition data_statement {X} (s : Stmt X) : Prop :=
  match s with
  | BeginTransaction | Commit | Rollback => False
  | _ => True
  end.

(** A callback that leaves the transaction to its caller. *)
Fixpoint plain {A} (p : Prog A) : Prop :=
  match p with
  | Ret _ | Raise _ => True
  | Do s k => data_statement s /\ forall r, plain (k r)
  end.

End Database.

(** ** Two connections on one store

    The store's side of two open transactions, the way InnoDB runs them:
    a plain [SELECT] is a consistent read and takes no lock; an [UPDATE]
    takes an exclusive lock on the row it matches and reads the latest
    committed value; the foreign-key check of an [INSERT] takes a shared
    lock on the referenced row; locks are held until commit or rollback.
    A statement that has to wait leaves everything as it is, and is tried
    again when its session is scheduled next.  Deadlock detection is not
    modelled. *)

Module Concurrent.

Inductive Isolation := READ_COMMITTED | REPEATABLE_READ.

Inductive Who := First | Second.

Record Session := mkSession {
  prog : Prog Transaction;
  snapshot : option DB;
  writes : gmap positive Account;
  inserts : list TransactionRow;
  xlocks : gset positive;
  slocks : gset positive;
  trace : list Logged
}.

Record World := mkWorld {
  isolation : Isolation;
  store : DB;
  first : Session;
  second : Session
}.

Definition start (p : Prog Transaction) : Session :=
  {| prog := p; snapshot := None; writes := ∅; inserts := [];
     xlocks := ∅; slocks := ∅; trace := [] |}.

(** The end of a transaction: its writes and locks are gone. *)
Definition cleared (s : Session) : Session :=
  {| prog := prog s; snapshot := None; writes := ∅; inserts := [];
     xlocks := ∅; slocks := ∅; trace := trace s |}.

(** A database as the session sees it: [base], under its own writes. *)
Definition overlay (base : DB) (s : Session) : DB :=
  {| users := users base;
     accounts := writes s ∪ accounts base;
     transactions := transactions base ++ inserts s;
     weight_string := weight_string base |}.

(** The read view of a consistent read. *)
Definition read_view (iso : Isolation) (st : DB) (s : Session) : DB :=
  match iso with
  | READ_COMMITTED => st
  | REPEATABLE_READ => default st (snapshot s)
  end.

Definition with_snapshot (iso : Isolation) (st : DB) (s : Session) : Session :=
  {| prog := prog s;
     snapshot := match iso with
                 | READ_COMMITTED => None
                 | REPEATABLE_READ => Some (read_view iso st s)
                 end;
     writes := writes s; inserts := inserts s;
     xlocks := xlocks s; slocks := slocks s; trace := trace s |}.

Definition row_of (id : Z) : option positive :=
  match id with
  | Zpos p => Some p
  | _ => None
  end.

(** The accounts that a ledger row references. *)
Definition referenced (row : TransactionRow) : list positive :=
  omap (fun ref => ref ≫= row_of)
    [row_source_account_id row; row_destination_account_id row].

(** One statement of session [me] while [other] is open too; [None] when
    the statement has to wait for a lock of [other]. *)
Definition exec (iso : Isolation) (st : DB) (me other : Session) {X} (s : Stmt X)
  : option (Result X * DB * Session) :=
  match s in Stmt X return option (Result X * DB * Session) with
  | BeginTransaction => Some (Ok tt, st, cleared me)
  | Commit => Some (Ok tt, overlay st me, cleared me)
  | Rollback => Some (Ok tt, st, cleared me)
  | SelectBalance id =>
      Some (Ok (Store.select_balance (overlay (read_view iso st me) me) id),
            st, with_snapshot iso st me)
  | SelectTransaction tid =>
      Some (Ok (Store.select_transaction (overlay (read_view iso st me) me) tid),
            st, with_snapshot iso st me)
  | UpdateBalance delta id =>
      match row_of id with
      | Some p =>
          if bool_decide (p ∈ xlocks other ∪ slocks other)
             && bool_decide (is_Some (accounts (overlay st me) !! p))
          then None
          else
            let r := Store.update_balance (overlay st me) delta id in
            Some (r.1, st,
                  {| prog := prog me; snapshot := snapshot me;
                     writes :=
                       match r.1, accounts r.2 !! p with
                       | Ok _, Some a => <[p := a]> (writes me)
                       | _, _ => writes me
                       end;
                     inserts := inserts me;
                     xlocks :=
                       if bool_decide (is_Some (accounts (overlay st me) !! p))
                       then {[p]} ∪ xlocks me else xlocks me;
                     slocks := slocks me; trace := trace me |})
      | None => Some (Ok tt, st, me)
      end
  | InsertTransaction row =>
      let r := Store.insert_transaction (overlay st me) row in
      match r.1 with
      | Throw e => Some (Throw e, st, me)
      | Ok _ =>
          if existsb (fun p => bool_decide (p ∈ xlocks other)) (referenced row)
             || Store.has_transaction_id (inserts other) (row_transaction_id row)
          then None
          else
            Some (Ok tt, st,
                  {| prog := prog me; snapshot := snapshot me;
                     writes := writes me;
                     inserts := inserts me ++ [row];
                     xlocks := xlocks me;
                     slocks := list_to_set (referenced row) ∪ slocks me;
                     trace := trace me |})
      end
  end.

Definition continue {X} (s : Stmt X) (p : Prog Transaction) (me : Session) : Session :=
  {| prog := p; snapshot := snapshot me; writes := writes me;
     inserts := inserts me; xlocks := xlocks me; slocks := slocks me;
     trace := trace me ++ [stmt s] |}.

(** The scheduled session runs up to its next [await]. *)
Definition step_session (iso : Isolation) (st : DB) (me other : Session)
  : DB * Session :=
  match prog me with
  | Do s k =>
      match exec iso st me other s with
      | Some (r, st', me') => (st', continue s (k r) me')
      | None => (st, me)
      end
  | _ => (st, me)
  end.

Definition step (w : World) (who : Who) : World :=
  match who with
  | First =>
      let r := step_session (isolation w) (store w) (first w) (second w) in
      {| isolation := isolation w; store := r.1; first := r.2; second := second w |}
  | Second =>
      let r := step_session (isolation w) (store w) (second w) (first w) in
      {| isolation := isolation w; store := r.1; first := first w; second := r.2 |}
  end.

Definition schedule (w : World) (order : list Who) : World :=
  foldl step w order.

(** What the promise of a session has settled to, if it has. *)
Definition outcome (s : Session) : option (Result Transaction) :=
  match prog s with
  | Ret t => Some (Ok t)
  | Raise e => Some (Throw e)
  | Do _ _ => None
  end.

(** Two submissions arriving together. *)
Definition race (iso : Isolation) (d : DB)
    (a b : CreateTransactionData * string) : World :=
  {| isolation := iso; store := d;
     first := start (TransactionService.submitTransaction a.1 a.2);
     second := start (TransactionService.submitTransaction b.1 b.2) |}.

End Concurrent.

(** ** Vocabulary of the statements below *)

(** The balance of the account [id], if there is one. *)
Definition balance_of (d : DB) (id : Z) : option Z :=
  balance <$> account_by_id (accounts d) id.

(** Every account balance satisfies [P]. *)
Definition all_balances (P : Z -> Prop) (d : DB) : Prop :=
  map_Forall (fun _ a => P (balance a)) (accounts d).

(** Every account balance is at least zero. *)
Definition non_negative (d : DB) : Prop :=
  all_balances (fun b => 0 <= b) d.

(** Every account balance is one that the column can hold. *)
Definition in_range (d : DB) : Prop :=
  all_balances (fun b => decimal_15_2 b = true) d.

(** A connection after [rollback ()]. *)
Definition rolled_back (c : Conn) : Conn :=
  with_working (logged Rollback c) (committed c).

(** A connection after a successful insert of [row], the commit and the
    read-back of the row. *)
Definition recorded (row : TransactionRow) (c : Conn) : Conn :=
  let w := with_transactions (working c) (transactions (working c) ++ [row]) in
  {| committed := w; working := w;
     log := log c ++ [stmt (InsertTransaction row); stmt Commit;
                      stmt (SelectTransaction (row_transaction_id row))] |}.

(** The connection on which the body runs once the transaction is open. *)
Definition opened (d : DB) : Conn :=
  {| committed := d; working := d; log := [stmt BeginTransaction] |}.

(** The unique key, the column range and the two foreign keys let [row]
    into the ledger. *)
Definition ledger_accepts (d : DB) (row : TransactionRow) : bool :=
  decimal_15_2 (row_amount row)
  && negb (Store.has_transaction_id (transactions d) (row_transaction_id row))
  && references_account (accounts d) (row_source_account_id row)
  && references_account (accounts d) (row_destination_account_id row).

(** The call returned a transaction marked failed, with this reason. *)
Definition returns_failed (r : Result Transaction) (why : string) : Prop :=
  exists t, r = Ok t /\ status t = failed /\ failure_reason t = Some why.

(** The call returned a transaction marked completed. *)
Definition returns_completed (r : Result Transaction) : Prop :=
  exists t, r = Ok t /\ status t = completed /\ failure_reason t = None.

(** The call threw an error of the store. *)
Definition raises_store_error (r : Result Transaction) : Prop :=
  exists q, r = Throw (MysqlError q).

(** The source account exists and holds at least [amount]. *)
Definition covered (d : DB) (src : Z) (amount : Q) : bool :=
  match balance_of d src with
  | Some b => Qle_bool amount (inject_Z b)
  | None => false
  end.

(** The business rules, in the order in which the engine applies them: the
    reason for which a request is refused, if it is. *)
Definition refusal (d : DB) (data : CreateTransactionData) : option string :=
  if Qle_bool (amount data) 0 then Some "Negative or zero amount not allowed"
  else
    match type data with
    | deposit =>
        match present (destination_account_id data) with
        | None => Some "Destination account required for deposit"
        | Some _ => None
        end
    | withdrawal =>
        match present (source_account_id data) with
        | None => Some "Source account required for withdrawal"
        | Some src =>
            if covered d src (amount data) then None
            else Some "Insufficient funds"
        end
    | transfer =>
        match present (source_account_id data),
              present (destination_account_id data) with
        | Some src, Some _ =>
            if covered d src (amount data) then None
            else Some "Insufficient funds"
        | _, _ =>
            Some "Both source and destination accounts required for transfer"
        end
    end.

Definition isUpdate (l : Logged) : bool :=
  match projT2 l with
  | UpdateBalance _ _ => true
  | _ => false
  end.

(** The balance updates of a request that no rule refuses, in the order
    in which the engine sends them: amount and account. *)
Definition movement (data : CreateTransactionData) : list (Q * Z) :=
  match type data, present (source_account_id data),
        present (destination_account_id data) with
  | deposit, _, Some dst => [(amount data, dst)]
  | withdrawal, Some src, _ => [((- amount data)%Q, src)]
  | transfer, Some src, Some dst =>
      [((- amount data)%Q, src); (amount data, dst)]
  | _, _, _ => []
  end.

(** Updates applied one after the other, up to the first that fails. *)
Fixpoint apply_updates (d : DB) (l : list (Q * Z)) : Result unit * DB :=
  match l with
  | [] => (Ok tt, d)
  | (delta, id) :: l' =>
      match Store.update_balance d delta id with
      | (Ok _, d') => apply_updates d' l'
      | (Throw e, d') => (Throw e, d')
      end
  end.

(** The amount is a whole number of hundredths: what a column stores of
    it is the amount itself. *)
Definition whole_hundredths (x : Q) : Prop :=
  (x == inject_Z (to_decimal x))%Q.







(** The completed transactions that reference the account [p] as their
    source or as their destination. *)
Definition completed_for (d : DB) (p : positive) : list TransactionRow :=
  filter (fun t => row_status t = completed
                   /\ (row_source_account_id t = Some (Zpos p)
                       \/ row_destination_account_id t = Some (Zpos p)))
    (transactions d).

(** [m] is the largest amount in [l], or zero when [l] is empty. *)
Definition largest_amount_or_zero (l : list TransactionRow) (m : Z) : Prop :=
  (l = [] -> m = 0)
  /\ (l <> [] -> exists t, t ∈ l /\ row_amount t = m)
  /\ (forall t, t ∈ l -> row_amount t <= m).

(** A session that holds no lock and has no uncommitted insert. *)
Definition idle (s : Concurrent.Session) : Prop :=
  Concurrent.xlocks s = ∅ /\ Concurrent.slocks s = ∅
  /\ Concurrent.inserts s = [].

(** A connection of [Store] and a session of [Concurrent] that stand for
    the same state of the same open transaction. *)
Definition agrees (c : Conn) (st : DB) (me : Concurrent.Session) : Prop :=
  committed c = st
  /\ working c = Concurrent.overlay st me
  /\ (Concurrent.snapshot me = None \/ Concurrent.snapshot me = Some st)
  /\ log c = Concurrent.trace me.

(** The uncommitted balance writes of a session are at or above zero. *)
Definition writes_non_negative (s : Concurrent.Session) : Prop :=
  map_Forall (fun _ a => 0 <= balance a) (Concurrent.writes s).

(** What a submission never touches in an account: its number and its
    owner. *)
Definition holder (a : Account) : string * positive :=
  (account_number a, user_id a).

Definition holders (d : DB) : gmap positive (string * positive) :=
  holder <$> accounts d.

(** No two rows of the ledger share a transaction identifier. *)
Definition unique_ids (d : DB) : Prop :=
  NoDup (row_transaction_id <$> transactions d).

(** Every account reference of the ledger names an account. *)
Definition references_exist (d : DB) : Prop :=
  Forall (fun row =>
            references_account (accounts d) (row_source_account_id row) = true
            /\ references_account (accounts d) (row_destination_account_id row) = true)
    (transactions d).

(** The shape of a row that the engine writes: a completed row has an
    amount of zero or more (a positive amount, as the column rounds it), no
    failure reason and the references its type needs; a failed row has a
    failure reason. *)
Definition engine_row (row : TransactionRow) : Prop :=
  match row_status row with
  | completed =>
      0 <= row_amount row /\ row_failure_reason row = None
      /\ match row_type row with
         | deposit => is_Some (row_destination_account_id row)
         | withdrawal => is_Some (row_source_account_id row)
         | transfer => is_Some (row_source_account_id row)
                       /\ is_Some (row_destination_account_id row)
         end
  | failed => is_Some (row_failure_reason row)
  end.

(** What a row of the ledger says about the balance of the account [id]:
    a completed deposit or transfer adds its amount to its destination, a
    completed withdrawal or transfer takes it from its source. *)
Definition row_effect (id : Z) (row : TransactionRow) : Z :=
  match row_status row with
  | failed => 0
  | completed =>
      (match row_type row with
       | deposit | transfer =>
           if decide (row_destination_account_id row = Some id)
           then row_amount row else 0
       | withdrawal => 0
       end)
      - (match row_type row with
         | withdrawal | transfer =>
             if decide (row_source_account_id row = Some id)
             then row_amount row else 0
         | deposit => 0
         end)
  end.

Definition ledger_effect (l : list TransactionRow) (id : Z) : Z :=
  foldr (fun row s => row_effect id row + s) 0 l.

(** The balance [b] of the account [id] after the updates of [l], each
    rounded as the column stores it. *)
Definition settled (l : list (Q * Z)) (id : Z) (b : Z) : Z :=
  foldl (fun b u => if decide (id = u.2) then balance_plus b u.1 else b) b l.

(** The three reasons that name a missing account reference. *)
Definition reference_reasons : list string :=
  ["Destination account required for deposit";
   "Source account required for withdrawal";
   "Both source and destination accounts required for transfer"].

(** The status of an answer to [GET /api/accounts/:accountId/balance]. *)
Definition balance_status (r : Response + BalanceData) : Z :=
  match r with
  | inl res => res_status res
  | inr _ => 200
  end.

(** The caller is authenticated and the account [id] exists and is the
    caller's. *)
Definition owns (caller : option AuthUser) (d : DB) (id : Z) : Prop :=
  exists a u,
    AccountService.findById id d = Some a /\ caller = Some u
    /\ user_id a = auth_id u.

(** ** Sample data *)

Definition alice : User := {| username := "alice"; secret_key := "key-alice" |}.
Definition bob : User := {| username := "bob"; secret_key := "key-bob" |}.

(** The collation of the samples: the letters A to Z compare without
    case, as they do under [utf8mb4_unicode_ci]. *)
Definition fold_case (c : Ascii.ascii) : Ascii.ascii :=
  let n := Ascii.nat_of_ascii c in
  if ((65 <=? n) && (n <=? 90))%nat then Ascii.ascii_of_nat (n + 32) else c.

Fixpoint ascii_ci (s : string) : string :=
  match s with
  | EmptyString => EmptyString
  | String c s' => String (fold_case c) (ascii_ci s')
  end.

(** Two users with one account each: 1000.00 and 500.00. *)
Definition seed : DB :=
  {| users := {[ 1%positive := alice; 2%positive := bob ]};
     accounts := {[ 1%positive := mkAccount "ACC001" 1 100000;
                    2%positive := mkAccount "ACC002" 2 50000 ]};
     transactions := [];
     weight_string := ascii_ci |}.

(** The same, with Bob's account at the top of what its column holds. *)
Definition vault : DB :=
  with_accounts seed
    (<[2%positive := mkAccount "ACC002" 2 DECIMAL_MAX]> (accounts seed)).

(** A day at the bank: a withdrawal that is refused, a transfer, a deposit
    of a negative amount, a deposit, and a withdrawal from an account that
    does not exist. *)
Definition sample_ops : list (CreateTransactionData * string) :=
  [(mkData withdrawal 500000 (Some 1) None, "tx-1");
   (mkData transfer 30000 (Some 1) (Some 2), "tx-2");
   (mkData deposit (-5) None (Some 2), "tx-3");
   (mkData deposit 2500 None (Some 1), "tx-4");
   (mkData withdrawal 100 (Some 9) None, "tx-5")].

(** Alice asks for 1.00 out of Bob's account. *)
Definition foreign_withdrawal : CreateTransactionData :=
  mkData withdrawal 100 (Some 2) None.

(** Two withdrawals of 800.00 from account 1, which holds 1000.00, and an
    order in which each reads the balance before either writes it. *)
Definition withdraw_800 : CreateTransactionData :=
  mkData withdrawal 80000 (Some 1) None.

Definition both_read_first : list Concurrent.Who :=
  let A := Concurrent.First in
  let B := Concurrent.Second in
  [A; A; B; B; A; B; A; A; A; B; B].

(** * Proofs *)

Import Store TransactionService Sequential.

(** ** Numbers and what the decimal columns store of them *)

Lemma inject_Z_succ k : (inject_Z (k + 1) == inject_Z k + 1)%Q.
Proof. rewrite inject_Z_plus. reflexivity. Qed.

Lemma inject_Z_pred k : (inject_Z (k - 1) == inject_Z k - 1)%Q.
Proof. unfold Z.sub. rewrite inject_Z_plus. reflexivity. Qed.

Lemma Qle_bool_false x y : Qle_bool x y = false <-> (y < x)%Q.
Proof.
  split; intros H.
  - apply Qnot_le_lt. intros Hle. apply Qle_bool_iff in Hle. congruence.
  - destruct (Qle_bool x y) eqn:E; [| reflexivity].
    apply Qle_bool_iff in E. lra.
Qed.

Lemma floor_unique k y :
  (inject_Z k <= y)%Q -> (y < inject_Z k + 1)%Q -> Qfloor y = k.
Proof.
  intros Hlo Hhi.
  pose proof (Qfloor_le y) as H1. pose proof (Qlt_floor y) as H2.
  rewrite inject_Z_succ in H2.
  assert (Ha : (inject_Z (Qfloor y) < inject_Z (k + 1))%Q)
    by (rewrite inject_Z_succ; lra).
  assert (Hb : (inject_Z k < inject_Z (Qfloor y + 1))%Q)
    by (rewrite inject_Z_succ; lra).
  rewrite <- Zlt_Qlt in Ha, Hb. lia.
Qed.

Lemma ceiling_unique k y :
  (inject_Z k - 1 < y)%Q -> (y <= inject_Z k)%Q -> Qceiling y = k.
Proof.
  intros Hlo Hhi.
  pose proof (Qle_ceiling y) as H1. pose proof (Qceiling_lt y) as H2.
  rewrite inject_Z_pred in H2.
  assert (Ha : (inject_Z (Qceiling y - 1) < inject_Z k)%Q)
    by (rewrite inject_Z_pred; lra).
  assert (Hb : (inject_Z (k - 1) < inject_Z (Qceiling y))%Q)
    by (rewrite inject_Z_pred; lra).
  rewrite <- Zlt_Qlt in Ha, Hb. lia.
Qed.

(** The nearest hundredth is within half a hundredth. *)
Lemma to_decimal_near x :
  (x - (1 # 2) <= inject_Z (to_decimal x))%Q
  /\ (inject_Z (to_decimal x) <= x + (1 # 2))%Q.
Proof.
  unfold to_decimal. destruct (Qle_bool 0 x).
  - pose proof (Qfloor_le (x + (1 # 2))) as H1.
    pose proof (Qlt_floor (x + (1 # 2))) as H2.
    rewrite inject_Z_succ in H2. split; lra.
  - pose proof (Qle_ceiling (x - (1 # 2))) as H1.
    pose proof (Qceiling_lt (x - (1 # 2))) as H2.
    rewrite inject_Z_pred in H2. split; lra.
Qed.

Lemma to_decimal_comp x y : (x == y)%Q -> to_decimal x = to_decimal y.
Proof.
  intros H. unfold to_decimal.
  assert (Hb : Qle_bool 0 x = Qle_bool 0 y).
  { destruct (Qle_bool 0 y) eqn:E.
    - apply Qle_bool_iff. apply Qle_bool_iff in E. lra.
    - apply Qle_bool_false. apply Qle_bool_false in E. lra. }
  rewrite Hb. destruct (Qle_bool 0 y).
  - apply Qfloor_comp. lra.
  - apply Qceiling_comp. lra.
Qed.

Lemma to_decimal_Z z : to_decimal (inject_Z z) = z.
Proof.
  unfold to_decimal. destruct (Qle_bool 0 (inject_Z z)).
  - apply floor_unique; lra.
  - apply ceiling_unique; lra.
Qed.

Lemma to_decimal_mono x y : (x <= y)%Q -> to_decimal x <= to_decimal y.
Proof.
  intros H. unfold to_decimal.
  destruct (Qle_bool 0 x) eqn:Ex, (Qle_bool 0 y) eqn:Ey.
  - apply Qfloor_resp_le. lra.
  - apply Qle_bool_iff in Ex. apply Qle_bool_false in Ey. lra.
  - apply Qle_bool_false in Ex. apply Qle_bool_iff in Ey.
    transitivity 0.
    + change 0 with (Qceiling (inject_Z 0)). apply Qceiling_resp_le.
      change (inject_Z 0) with 0%Q. lra.
    + change 0 with (Qfloor (inject_Z 0)) at 1. apply Qfloor_resp_le.
      change (inject_Z 0) with 0%Q. lra.
  - apply Qceiling_resp_le. lra.
Qed.

Lemma to_decimal_non_negative x : (0 <= x)%Q -> 0 <= to_decimal x.
Proof.
  intros H. rewrite <- (to_decimal_Z 0) at 1. apply to_decimal_mono. exact H.
Qed.

(** Adding a whole number commutes with rounding while the sign is kept. *)
Lemma to_decimal_shift b x :
  (0 <= x)%Q -> (0 <= inject_Z b + x)%Q ->
  to_decimal (inject_Z b + x) = b + to_decimal x.
Proof.
  intros Hx Hbx. unfold to_decimal.
  apply Qle_bool_iff in Hx, Hbx. rewrite Hx, Hbx.
  pose proof (Qfloor_le (x + (1 # 2))) as H1.
  pose proof (Qlt_floor (x + (1 # 2))) as H2.
  rewrite inject_Z_succ in H2.
  apply floor_unique; rewrite inject_Z_plus; lra.
Qed.

Lemma balance_plus_Z b c : balance_plus b (inject_Z c) = b + c.
Proof.
  unfold balance_plus. rewrite <- inject_Z_plus. apply to_decimal_Z.
Qed.

Lemma balance_plus_whole b x :
  whole_hundredths x ->
  balance_plus b x = b + to_decimal x
  /\ balance_plus b (- x) = b - to_decimal x.
Proof.
  unfold whole_hundredths, balance_plus. intros H. split.
  - rewrite <- (to_decimal_Z (b + to_decimal x)). apply to_decimal_comp.
    rewrite inject_Z_plus. lra.
  - rewrite <- (to_decimal_Z (b - to_decimal x)). apply to_decimal_comp.
    unfold Z.sub. rewrite inject_Z_plus, inject_Z_opp. lra.
Qed.

Lemma balance_plus_credit b x :
  0 <= b -> (0 <= x)%Q -> balance_plus b x = b + to_decimal x.
Proof.
  intros Hb Hx. apply to_decimal_shift; [exact Hx |].
  rewrite Zle_Qle in Hb. change (inject_Z 0) with 0%Q in Hb. lra.
Qed.

Lemma balance_plus_mono b x y :
  (x <= y)%Q -> balance_plus b x <= balance_plus b y.
Proof. intros H. apply to_decimal_mono. lra. Qed.

Lemma balance_plus_0 b : balance_plus b 0 = b.
Proof.
  pose proof (balance_plus_Z b 0) as H. rewrite Z.add_0_r in H. exact H.
Qed.

(** A debit that the balance covers leaves a balance between zero and
    what it was. *)
Lemma balance_plus_debit b x :
  (0 <= x)%Q -> (x <= inject_Z b)%Q ->
  0 <= balance_plus b (- x) <= b.
Proof.
  intros Hx Hcov. split.
  - apply to_decimal_non_negative. lra.
  - rewrite <- (balance_plus_0 b) at 2. apply balance_plus_mono. lra.
Qed.



Lemma balance_plus_near b x :
  (inject_Z b + x - (1 # 2) <= inject_Z (balance_plus b x))%Q
  /\ (inject_Z (balance_plus b x) <= inject_Z b + x + (1 # 2))%Q.
Proof. apply to_decimal_near. Qed.

Lemma balance_plus_comp b x y :
  (x == y)%Q -> balance_plus b x = balance_plus b y.
Proof. intros H. apply to_decimal_comp. rewrite H. reflexivity. Qed.

(** ** Running programs *)

Lemma run_bind {A B} (p : Prog A) (k : A -> Prog B) (c : Conn) :
  run (bind p k) c =
  match run p c with
  | (Ok a, c') => run (k a) c'
  | (Throw e, c') => (Throw e, c')
  end.
Proof.
  revert c. induction p as [a | e | X s h IH]; intros c; simpl; try reflexivity.
  apply IH.
Qed.

Lemma run_try_catch {A} (p : Prog A) (handler : Exn -> Prog A) (c : Conn) :
  run (try_catch p handler) c =
  match run p c with
  | (Ok a, c') => (Ok a, c')
  | (Throw e, c') => run (handler e) c'
  end.
Proof.
  revert c. induction p as [a | e | X s h IH]; intros c; simpl; try reflexivity.
  apply IH.
Qed.

Lemma run_rollback {A} (e : Exn) (c : Conn) :
  run (A := A) (execute Rollback ;;; Raise e) c = (Throw e, rolled_back c).
Proof. reflexivity. Qed.

(** ** The ledger insert *)

Lemma insert_transaction_throw d row e d' :
  insert_transaction d row = (Throw e, d') ->
  d' = d /\ exists q, e = MysqlError q /\ q <> ER_CHECK_CONSTRAINT_VIOLATED.
Proof.
  unfold insert_transaction.
  repeat case_match; intros [= <- <-]; split; eauto.
Qed.

Lemma insert_transaction_ok d row u d' :
  insert_transaction d row = (Ok u, d') ->
  d' = with_transactions d (transactions d ++ [row])
  /\ decimal_15_2 (row_amount row) = true
  /\ has_transaction_id (transactions d) (row_transaction_id row) = false
  /\ references_account (accounts d) (row_source_account_id row) = true
  /\ references_account (accounts d) (row_destination_account_id row) = true.
Proof.
  unfold insert_transaction.
  repeat case_match; intros [= <-]; try discriminate.
  repeat match goal with
         | H : negb _ = false |- _ => apply negb_false_iff in H
         | H : _ && _ = true |- _ => apply andb_prop in H; destruct H
         end.
  auto.
Qed.

Lemma select_fresh l tid :
  has_transaction_id l tid = false ->
  filter (fun r => row_transaction_id r = tid) l = [].
Proof.
  induction l as [| r l IH]; simpl; [reflexivity |].
  intros H. apply orb_false_iff in H as [Hr Hl].
  apply String.eqb_neq in Hr.
  rewrite filter_cons_False by exact Hr. auto.
Qed.

(** What inserting, committing and reading back amounts to. *)
Lemma run_insertAndFetch data tid st why c :
  run (insertAndFetch data tid st why) c =
  let row := newRow data tid st why in
  match insert_transaction (working c) row with
  | (Ok _, _) => (Ok (mapRowToTransaction row), recorded row c)
  | (Throw e, _) => (Throw e, logged (InsertTransaction row) c)
  end.
Proof.
  unfold insertAndFetch. cbn zeta.
  destruct (insert_transaction (working c) (newRow data tid st why))
    as [[u | e] d'] eqn:E.
  - pose proof E as E'.
    apply insert_transaction_ok in E' as (-> & _ & Hfresh & _).
    simpl in Hfresh. simpl. rewrite E. simpl.
    unfold select_transaction. simpl.
    rewrite filter_app, (select_fresh _ _ Hfresh). simpl.
    rewrite filter_cons_True by reflexivity. simpl.
    unfold recorded, logged. simpl. do 2 f_equal.
    rewrite <- !app_assoc. reflexivity.
  - pose proof E as E'.
    apply insert_transaction_throw in E' as [-> _].
    simpl. rewrite E. simpl. destruct c; reflexivity.
Qed.

(** [submitTransaction] on a fresh connection, in three stages: the checks
    and balance updates, the ledger record, and the rollback of whatever
    was thrown. *)
Lemma submit_eq data tid d :
  submit data tid d =
  match run (validateAndProcess data) (opened d) with
  | (Ok outcome, c) =>
      let row := newRow data tid outcome.1 outcome.2 in
      match insert_transaction (working c) row with
      | (Ok _, _) => (Ok (mapRowToTransaction row), recorded row c)
      | (Throw e, _) =>
          (Throw e, rolled_back (logged (InsertTransaction row) c))
      end
  | (Throw e, c) => (Throw e, rolled_back c)
  end.
Proof.
  unfold submit, serve, submitTransaction, submitBody.
  rewrite run_try_catch. simpl.
  rewrite run_bind.
  change (with_working (logged BeginTransaction (getConnection d)) d)
    with (opened d).
  destruct (run (validateAndProcess data) (opened d)) as [[[st why] | e] c].
  - rewrite run_insertAndFetch. cbn zeta. simpl.
    destruct (insert_transaction (working c) (newRow data tid st why))
      as [[u | e] d']; reflexivity.
  - reflexivity.
Qed.

(** ** Balance updates *)

Lemma update_balance_throw d delta id e d' :
  update_balance d delta id = (Throw e, d') ->
  d' = d /\ exists p a,
    id = Zpos p /\ accounts d !! p = Some a /\
    ((e = MysqlError ER_WARN_DATA_OUT_OF_RANGE
      /\ decimal_15_2 (balance_plus (balance a) delta) = false)
     \/ (e = MysqlError ER_CHECK_CONSTRAINT_VIOLATED /\ balance_plus (balance a) delta < 0)).
Proof.
  unfold update_balance. destruct id as [| p | p]; try discriminate.
  destruct (accounts d !! p) as [a |] eqn:Ha; try discriminate.
  cbn zeta.
  destruct (decimal_15_2 (balance_plus (balance a) delta)) eqn:Hr; simpl.
  - unfold chk_balance_non_negative.
    destruct (0 <=? balance_plus (balance a) delta) eqn:Hc; simpl; intros [= <- <-].
    apply Z.leb_gt in Hc. split; [reflexivity |]. exists p, a. auto.
  - intros [= <- <-]. split; [reflexivity |]. exists p, a. auto.
Qed.

Lemma update_balance_ok d delta id u d' :
  update_balance d delta id = (Ok u, d') ->
  (account_by_id (accounts d) id = None /\ d' = d)
  \/ exists p a,
       id = Zpos p /\ accounts d !! p = Some a /\
       decimal_15_2 (balance_plus (balance a) delta) = true /\
       0 <= balance_plus (balance a) delta /\
       d' = with_accounts d
              (<[p := with_balance a (balance_plus (balance a) delta)]> (accounts d)).
Proof.
  destruct u.
  unfold update_balance. destruct id as [| p | p]; simpl;
    try (intros [= <-]; left; split; reflexivity).
  destruct (accounts d !! p) as [a |] eqn:Ha;
    [| intros [= <-]; left; split; reflexivity].
  cbn zeta.
  destruct (decimal_15_2 (balance_plus (balance a) delta)) eqn:Hr; simpl; try discriminate.
  unfold chk_balance_non_negative.
  destruct (0 <=? balance_plus (balance a) delta) eqn:Hc; simpl; intros [= <-].
  apply Z.leb_le in Hc. right. exists p, a. auto.
Qed.

Lemma insert_transaction_accounts d row :
  accounts (insert_transaction d row).2 = accounts d.
Proof. unfold insert_transaction. repeat case_match; reflexivity. Qed.

(** ** What the store checks on every write holds of every balance *)

Section Checked.

Variable P : Z -> Prop.
Hypothesis checked : forall b, decimal_15_2 b = true -> 0 <= b -> P b.

Lemma update_balance_checked d delta id :
  all_balances P d -> all_balances P (update_balance d delta id).2.
Proof.
  intros Hd.
  destruct (update_balance d delta id) as [[u | e] d'] eqn:E; simpl.
  - apply update_balance_ok in E as [[_ ->] | (p & a & -> & Ha & Hr & Hb & ->)];
      [exact Hd |].
    unfold all_balances; simpl.
    apply map_Forall_insert_2; [apply checked; assumption | exact Hd].
  - apply update_balance_throw in E as [-> _]. exact Hd.
Qed.

Lemma exec_checked {X} (s : Stmt X) (c : Conn) :
  all_balances P (committed c) -> all_balances P (working c) ->
  all_balances P (committed (exec s c).2)
  /\ all_balances P (working (exec s c).2).
Proof.
  intros Hc Hw. destruct s; simpl; auto.
  - split; [exact Hc |]. apply update_balance_checked, Hw.
  - split; [exact Hc |]. unfold all_balances.
    rewrite insert_transaction_accounts. exact Hw.
Qed.

Lemma run_checked {A} (p : Prog A) (c : Conn) :
  all_balances P (committed c) -> all_balances P (working c) ->
  all_balances P (committed (run p c).2)
  /\ all_balances P (working (run p c).2).
Proof.
  revert c. induction p as [a | e | X s k IH]; intros c Hc Hw; simpl; auto.
  apply IH; apply (exec_checked s (logged s c)); assumption.
Qed.

Lemma after_checked data tid d :
  all_balances P d -> all_balances P (after data tid d).
Proof.
  intros Hd. unfold after, submit, serve.
  apply run_checked; exact Hd.
Qed.

Lemma submitAll_checked ops d :
  all_balances P d -> all_balances P (submitAll ops d).
Proof.
  revert d. induction ops as [| [data tid] ops IH]; intros d Hd; simpl.
  - exact Hd.
  - apply IH, after_checked, Hd.
Qed.

End Checked.

Lemma update_balance_non_negative d delta id :
  non_negative d -> non_negative (update_balance d delta id).2.
Proof. apply update_balance_checked. auto. Qed.

(** Balances stay within the range of their column. *)
Lemma submitAll_in_range ops d : in_range d -> in_range (submitAll ops d).
Proof. apply submitAll_checked. auto. Qed.

(** C1. Starting from a state in which every account balance is at least
    zero, every account balance is at least zero after any finite sequence
    of submitted deposits, withdrawals and transfers, whatever their
    amounts and account references. *)
Theorem c1_balances_stay_non_negative
    (ops : list (CreateTransactionData * string)) (d : DB) :
  non_negative d -> non_negative (submitAll ops d).
Proof.
  revert d. induction ops as [| [data tid] ops IH]; intros d Hd.
  - exact Hd.
  - apply (IH (after data tid d)).
    unfold after, submit, serve.
    apply (run_checked (fun b => 0 <= b)); auto.
Qed.

(** ** What the ledger accepts *)

Lemma insert_accepted d row :
  ledger_accepts d row = true ->
  insert_transaction d row =
  (Ok tt, with_transactions d (transactions d ++ [row])).
Proof.
  unfold ledger_accepts, insert_transaction. intros H.
  apply andb_prop in H as [H Hdst]. apply andb_prop in H as [H Hsrc].
  apply andb_prop in H as [Hrange Hfresh]. apply negb_true_iff in Hfresh.
  rewrite Hrange, Hfresh, Hsrc, Hdst. reflexivity.
Qed.

Lemma insert_rejected d row :
  ledger_accepts d row = false ->
  exists q, insert_transaction d row = (Throw (MysqlError q), d)
            /\ q <> ER_CHECK_CONSTRAINT_VIOLATED.
Proof.
  unfold ledger_accepts, insert_transaction. intros H.
  destruct (decimal_15_2 (row_amount row)); simpl in *; [| eauto].
  destruct (has_transaction_id _ _); simpl in *; [eauto |].
  rewrite H. simpl. eauto.
Qed.

(** ** Amounts that are not positive *)

Lemma run_non_positive data c :
  (amount data <= 0)%Q ->
  run (validateAndProcess data) c =
  (Ok (failed, Some "Negative or zero amount not allowed"), c).
Proof.
  intros H. apply Qle_bool_iff in H. unfold validateAndProcess. rewrite H.
  reflexivity.
Qed.

(** C4, as the code has it.  For every submitted transaction of any type
    with an amount of zero or less, no account balance is changed and
    nothing but the ledger insert is attempted.  When the ledger accepts
    the row, the result is a transaction with status failed and the reason
    "Negative or zero amount not allowed"; when it does not (a referenced
    account is missing, the identifier is taken, the amount does not fit
    the column), the store's error is thrown and nothing is recorded. *)
Theorem c4_non_positive_amount (data : CreateTransactionData) (tid : string) (d : DB) :
  (amount data <= 0)%Q ->
  let why := "Negative or zero amount not allowed" in
  let row := newRow data tid failed (Some why) in
  let r := submit data tid d in
  accounts (committed r.2) = accounts d /\
  if ledger_accepts d row then
    returns_failed r.1 why
    /\ transactions (committed r.2) = transactions d ++ [row]
    /\ log r.2 = [stmt BeginTransaction; stmt (InsertTransaction row);
                  stmt Commit; stmt (SelectTransaction tid)]
  else
    raises_store_error r.1
    /\ committed r.2 = d
    /\ log r.2 = [stmt BeginTransaction; stmt (InsertTransaction row);
                  stmt Rollback].
Proof.
  intros Hle why row r. subst r.
  rewrite submit_eq, (run_non_positive _ _ Hle). cbn zeta. simpl fst; simpl snd.
  fold why. fold row. change (working (opened d)) with d.
  destruct (ledger_accepts d row) eqn:Hacc.
  - rewrite (insert_accepted _ _ Hacc). simpl. repeat split.
    exists (mapRowToTransaction row). auto.
  - destruct (insert_rejected _ _ Hacc) as (q & -> & _). simpl. repeat split.
    exists q. reflexivity.
Qed.

(** C4, as the specification has it, fails: a transfer of -10.00 from an
    existing account to an account that does not exist is not answered by
    a failed transaction; the store rejects the ledger row. *)
Lemma c4_counterexample :
  let data := mkData transfer (-1000) (Some 1) (Some 9) in
  (amount data <= 0)%Q /\
  ~ returns_failed (submit data "tx-1" seed).1
      "Negative or zero amount not allowed".
Proof.
  split; [simpl; lra |].
  intros (t & H & _). vm_compute in H. discriminate H.
Qed.

(** The same happens between existing accounts when the amount has more
    digits than the column of the ledger: the insert is out of range. *)
Lemma oversized_amount_is_rejected :
  (submit (mkData withdrawal (inject_Z (- DECIMAL_MAX - 1)) (Some 1) None)
     "tx-1" seed).1
  = Throw (MysqlError ER_WARN_DATA_OUT_OF_RANGE).
Proof. vm_compute. reflexivity. Qed.

Lemma c4_witness :
  let data := mkData withdrawal (-1000) (Some 1) None in
  (amount data <= 0)%Q /\
  returns_failed (submit data "tx-1" seed).1
    "Negative or zero amount not allowed".
Proof.
  split; [simpl; lra |].
  exact (proj1 (proj2 (c4_non_positive_amount
                         (mkData withdrawal (-1000) (Some 1) None) "tx-1" seed
                         ltac:(simpl; lra)))).
Defined.

(** ** Refused requests *)

Lemma run_checkSufficientBalance src amt c :
  run (checkSufficientBalance src amt) c =
  (Ok (covered (working c) src amt), logged (SelectBalance src) c).
Proof.
  unfold checkSufficientBalance, covered, balance_of. simpl.
  unfold select_balance.
  destruct (account_by_id (accounts (working c)) src); reflexivity.
Qed.

(** A refused request leaves the open transaction without any write. *)
Lemma run_refused data why c :
  refusal (working c) data = Some why ->
  exists c',
    run (validateAndProcess data) c = (Ok (failed, Some why), c')
    /\ working c' = working c /\ committed c' = committed c
    /\ filter isUpdate (log c') = filter isUpdate (log c).
Proof.
  unfold refusal, validateAndProcess.
  destruct (Qle_bool (amount data) 0).
  { intros [= <-]. exists c. auto. }
  destruct (type data).
  - destruct (present (destination_account_id data)); [discriminate |].
    intros [= <-]. exists c. auto.
  - destruct (present (source_account_id data)) as [src |].
    + rewrite run_bind, run_checkSufficientBalance.
      destruct (covered (working c) src (amount data)); simpl;
        [discriminate |].
      intros [= <-]. eexists. split; [reflexivity |].
      simpl. rewrite filter_app. simpl. rewrite app_nil_r. auto.
    + intros [= <-]. exists c. auto.
  - destruct (present (source_account_id data)) as [src |],
             (present (destination_account_id data)) as [dst |];
      try solve [intros [= <-]; exists c; auto].
    rewrite run_bind, run_checkSufficientBalance.
    destruct (covered (working c) src (amount data)); simpl;
      [discriminate |].
    intros [= <-]. eexists. split; [reflexivity |].
    simpl. rewrite filter_app. simpl. rewrite app_nil_r. auto.
Qed.

(** The outcome of a refused request is decided by the ledger alone. *)
Lemma submit_refused data tid d why :
  refusal d data = Some why ->
  let row := newRow data tid failed (Some why) in
  let r := submit data tid d in
  filter isUpdate (log r.2) = [] /\
  if ledger_accepts d row then
    r.1 = Ok (mapRowToTransaction row)
    /\ committed r.2 = with_transactions d (transactions d ++ [row])
  else
    raises_store_error r.1 /\ committed r.2 = d.
Proof.
  intros Hwhy row r. subst r. rewrite submit_eq.
  destruct (run_refused data why (opened d) Hwhy) as (c & -> & Hw & Hc & Hlog).
  cbn zeta. simpl fst; simpl snd. fold row. rewrite Hw. simpl.
  simpl in Hlog.
  destruct (ledger_accepts d row) eqn:Hacc.
  - rewrite (insert_accepted _ _ Hacc). simpl. rewrite Hw. simpl.
    rewrite filter_app, Hlog. auto.
  - destruct (insert_rejected _ _ Hacc) as (q & -> & _). simpl.
    rewrite !filter_app, Hlog. simpl.
    repeat split; [exists q; reflexivity | exact Hc].
Qed.

(** C3. A request that breaks a business rule (an amount of zero or less,
    a missing account reference, funds that do not cover the amount) is
    answered by a transaction with status failed and the rule's reason;
    nothing is thrown on account of the rule.  An error is thrown only
    when the store rejects the ledger row: then it is the store's error,
    and the database is as it was. *)
Theorem c3_business_rules_do_not_throw
    (data : CreateTransactionData) (tid : string) (d : DB) (why : string) :
  refusal d data = Some why ->
  let row := newRow data tid failed (Some why) in
  let r := submit data tid d in
  if ledger_accepts d row then
    returns_failed r.1 why
    /\ accounts (committed r.2) = accounts d
    /\ transactions (committed r.2) = transactions d ++ [row]
  else
    raises_store_error r.1 /\ committed r.2 = d.
Proof.
  intros Hwhy row r.
  destruct (submit_refused data tid d why Hwhy) as [_ H].
  fold row r in H. destruct (ledger_accepts d row).
  - destruct H as [Hr Hd]. rewrite Hr, Hd. repeat split.
    exists (mapRowToTransaction row). auto.
  - exact H.
Qed.

Lemma c3_witness :
  let data := mkData withdrawal 500000 (Some 1) None in
  refusal seed data = Some "Insufficient funds" /\
  returns_failed (submit data "tx-1" seed).1 "Insufficient funds".
Proof.
  split; [reflexivity |].
  exact (proj1 (c3_business_rules_do_not_throw
                  (mkData withdrawal 500000 (Some 1) None) "tx-1" seed
                  "Insufficient funds" eq_refl)).
Defined.

(** ** A source account that does not exist *)

Lemma refusal_absent_source data d src :
  type data <> deposit -> (0 < amount data)%Q ->
  present (source_account_id data) = Some src ->
  account_by_id (accounts d) src = None ->
  exists why, refusal d data = Some why
    /\ (type data = withdrawal \/ present (destination_account_id data) <> None ->
        why = "Insufficient funds").
Proof.
  intros Hty Hpos Hsrc Habs. unfold refusal, covered, balance_of.
  apply Qle_bool_false in Hpos. rewrite Hpos, Hsrc, Habs. simpl.
  destruct (type data); [congruence | eauto |].
  destruct (present (destination_account_id data)); eauto.
  eexists. split; [reflexivity |]. intros [? | ?]; congruence.
Qed.

(** C10, as the code has it.  For every withdrawal or transfer request
    with a positive amount whose source account reference matches no
    account, the engine settles on a failed transaction ("Insufficient
    funds" when the required references are present) and updates no
    balance, but the ledger row it then inserts refers to the missing
    account: the store rejects it, the store's error is thrown, and the
    database is as it was. *)
Theorem c10_absent_source_is_rejected_by_the_ledger
    (data : CreateTransactionData) (tid : string) (d : DB) (src : Z) :
  type data <> deposit -> (0 < amount data)%Q ->
  present (source_account_id data) = Some src ->
  account_by_id (accounts d) src = None ->
  let r := submit data tid d in
  raises_store_error r.1
  /\ committed r.2 = d
  /\ filter isUpdate (log r.2) = []
  /\ exists why, refusal d data = Some why
       /\ (type data = withdrawal \/ present (destination_account_id data) <> None ->
           why = "Insufficient funds").
Proof.
  intros Hty Hpos Hsrc Habs r.
  destruct (refusal_absent_source data d src Hty Hpos Hsrc Habs) as (why & Hwhy & Hif).
  destruct (submit_refused data tid d why Hwhy) as [Hlog H].
  fold r in Hlog, H.
  assert (Hacc : ledger_accepts d (newRow data tid failed (Some why)) = false).
  { unfold ledger_accepts. simpl. rewrite Hsrc. simpl. rewrite Habs.
    rewrite bool_decide_eq_false_2 by (intros [? ?]; discriminate).
    rewrite andb_false_r. reflexivity. }
  rewrite Hacc in H. destruct H as [Hr Hd]. eauto 10.
Qed.

(** C10, as the specification has it, fails: a withdrawal of 1.00 from
    account 9, which does not exist, is not answered by a failed
    transaction. *)
Lemma c10_counterexample :
  let data := mkData withdrawal 100 (Some 9) None in
  (0 < amount data)%Q
  /\ account_by_id (accounts seed) 9 = None
  /\ ~ returns_failed (submit data "tx-1" seed).1 "Insufficient funds".
Proof.
  split; [simpl; lra |]. split; [reflexivity |].
  intros (t & H & _). vm_compute in H. discriminate H.
Qed.

Lemma c10_witness :
  let data := mkData withdrawal 100 (Some 9) None in
  raises_store_error (submit data "tx-1" seed).1
  /\ committed (submit data "tx-1" seed).2 = seed.
Proof.
  pose proof (c10_absent_source_is_rejected_by_the_ledger
                (mkData withdrawal 100 (Some 9) None) "tx-1" seed 9
                ltac:(discriminate) ltac:(simpl; lra) eq_refl eq_refl) as H.
  exact (conj (proj1 H) (proj1 (proj2 H))).
Defined.

(** ** The store's own defence *)


(** In whole hundredths that is: whenever the amount exceeds the
    balance. *)
Lemma overdraft_in_whole_hundredths (b c : Z) :
  b - c < 0 -> balance_plus b (- inject_Z c) < 0.
Proof.
  intros H. rewrite <- inject_Z_opp, balance_plus_Z. lia.
Qed.


(** ** Requests that no rule refuses *)

Lemma run_admitted data c :
  refusal (working c) data = None ->
  exists c',
    run (validateAndProcess data) c =
    (match (apply_updates (working c) (movement data)).1 with
     | Ok _ => Ok (completed, None)
     | Throw e => Throw e
     end, c')
    /\ working c' = (apply_updates (working c) (movement data)).2
    /\ committed c' = committed c.
Proof.
  unfold refusal, validateAndProcess, movement.
  destruct (Qle_bool (amount data) 0); [discriminate |].
  destruct (type data).
  - destruct (present (destination_account_id data)) as [dst |];
      [| discriminate].
    intros _. destruct (present (source_account_id data)); simpl;
      destruct (update_balance (working c) (amount data) dst) as [[[] | e] w];
      simpl; eauto.
  - destruct (present (source_account_id data)) as [src |]; [| discriminate].
    rewrite run_bind, run_checkSufficientBalance.
    destruct (covered (working c) src (amount data)); [| discriminate].
    intros _. simpl.
    destruct (update_balance (working c) (- amount data) src) as [[[] | e] w];
      simpl; eauto.
  - destruct (present (source_account_id data)) as [src |]; [| discriminate].
    destruct (present (destination_account_id data)) as [dst |];
      [| discriminate].
    rewrite run_bind, run_checkSufficientBalance.
    destruct (covered (working c) src (amount data)); [| discriminate].
    intros _. simpl.
    destruct (update_balance (working c) (- amount data) src) as [[[] | e] w];
      simpl; eauto.
    destruct (update_balance w (amount data) dst) as [[[] | e] w'];
      simpl; eauto.
Qed.

(** The outcome of a request that no rule refuses. *)
Lemma submit_admitted data tid d :
  refusal d data = None ->
  let r := submit data tid d in
  match apply_updates d (movement data) with
  | (Throw e, _) => r.1 = Throw e /\ committed r.2 = d
  | (Ok _, w) =>
      let row := newRow data tid completed None in
      if ledger_accepts w row then
        r.1 = Ok (mapRowToTransaction row)
        /\ committed r.2 = with_transactions w (transactions w ++ [row])
      else
        raises_store_error r.1 /\ committed r.2 = d
  end.
Proof.
  intros Hadm r. subst r. rewrite submit_eq.
  destruct (run_admitted data (opened d) Hadm) as (c & -> & Hw & Hc).
  change (working (opened d)) with d in *. simpl in Hc.
  destruct (apply_updates d (movement data)) as [[[] | e] w]; simpl in *.
  - rewrite Hw. change ((completed, @None string).1) with completed.
    change ((completed, @None string).2) with (@None string).
    destruct (ledger_accepts w (newRow data tid completed None)) eqn:Hacc.
    + rewrite (insert_accepted _ _ Hacc). simpl. rewrite Hw. auto.
    + destruct (insert_rejected _ _ Hacc) as (q & -> & _). simpl.
      split; [exists q; reflexivity | exact Hc].
  - auto.
Qed.





(** ** Transfers *)

Lemma apply_updates_throw l : forall d e w,
  apply_updates d l = (Throw e, w) -> exists q, e = MysqlError q.
Proof.
  induction l as [| [delta id] l IH]; intros d e w; simpl; [discriminate |].
  destruct (update_balance d delta id) as [[u | e'] d'] eqn:Hupd.
  - apply IH.
  - intros [= <- <-].
    destruct (update_balance_throw _ _ _ _ _ Hupd)
      as (_ & p & a & _ & _ & [[-> _] | [-> _]]); eauto.
Qed.





(** It fails between existing accounts as well: a transfer of half a
    hundredth (0.005) from account 1 to account 2 is completed and
    recorded with the amount 0.01; the debit leaves 1000.00 where it was,
    the credit turns 500.00 into 500.01. *)
Lemma half_hundredth_transfer_changes_one_balance :
  let data := mkData transfer 0.5 (Some 1) (Some 2) in
  let r := submit data "tx-1" seed in
  returns_completed r.1
  /\ (tx_amount <$> match r.1 with Ok t => Some t | Throw _ => None end) = Some 1
  /\ balance_of (committed r.2) 1 = balance_of seed 1
  /\ balance_of seed 2 = Some 50000
  /\ balance_of (committed r.2) 2 = Some 50001.
Proof.
  split_and!; try (vm_compute; reflexivity).
  eexists. split_and!; vm_compute; reflexivity.
Qed.

(** A transfer between two existing accounts can end the third way too:
    when the credit would exceed what the column holds, the debit has
    been applied to the working copy, the credit fails, and the rollback
    restores the source. *)
Lemma credit_out_of_range_aborts :
  let data := mkData transfer 30000 (Some 1) (Some 2) in
  (submit data "tx-1" vault).1 = Throw (MysqlError ER_WARN_DATA_OUT_OF_RANGE)
  /\ committed (submit data "tx-1" vault).2 = vault
  /\ log (submit data "tx-1" vault).2
     = [stmt BeginTransaction; stmt (SelectBalance 1);
        stmt (UpdateBalance (-30000) 1); stmt (UpdateBalance 30000 2);
        stmt Rollback].
Proof. vm_compute. repeat split; reflexivity. Qed.





(** ** The summary report *)

Import Sql Report.

Lemma MAX_spec (l : list (option Z)) :
  match MAX l with
  | None => forall v, v ∈ l -> v = None
  | Some m => Some m ∈ l /\ forall x, Some x ∈ l -> x <= m
  end.
Proof.
  induction l as [| v l IH]; simpl.
  - intros v Hv. inversion Hv.
  - fold (MAX l). destruct v as [x |], (MAX l) as [m |].
    + destruct IH as [Hm Hle]. split.
      * destruct (Z.max_spec x m) as [[_ ->] | [_ ->]];
          [right; exact Hm | left].
      * intros y Hy. apply elem_of_cons in Hy as [[= ->] | Hy];
          [| apply Hle in Hy]; lia.
    + split; [left |].
      intros y Hy. apply elem_of_cons in Hy as [[= ->] | Hy]; [lia |].
      apply IH in Hy. discriminate.
    + destruct IH as [Hm Hle]. split; [right; exact Hm |].
      intros y Hy. apply elem_of_cons in Hy as [[=] | Hy]. auto.
    + intros v Hv. apply elem_of_cons in Hv as [-> | Hv]; auto.
Qed.

Lemma elem_of_left_join {A B} (on : A -> B -> bool) (l : list A) (r : list B)
    (a : A) (ob : option B) :
  (a, ob) ∈ left_join on l r <->
  a ∈ l /\ match ob with
           | Some b => b ∈ r /\ on a b = true
           | None => forall b, b ∈ r -> on a b = false
           end.
Proof.
  unfold left_join. rewrite list_elem_of_bind. split.
  - intros (a' & Hin & Ha').
    destruct (filter (fun b => on a' b) r) as [| b0 bs] eqn:Hf.
    + apply list_elem_of_singleton in Hin as [= <- ->]. split; [exact Ha' |].
      intros b Hb. destruct (on a b) eqn:Hon; [| reflexivity].
      exfalso. eapply (filter_nil_not_elem_of _ _ _ Hf); [| exact Hb].
      simpl. rewrite Hon. exact I.
    + rewrite <- Hf in Hin. apply list_elem_of_fmap in Hin as (b & [= <- ->] & Hb).
      apply list_elem_of_filter in Hb as [Hon Hb]. split; [exact Ha' |].
      split; [exact Hb |]. apply Is_true_true_1, Hon.
  - intros [Ha Hob]. exists a. split; [| exact Ha].
    destruct ob as [b |].
    + destruct Hob as [Hb Hon].
      assert (Hin : b ∈ filter (fun b => on a b) r).
      { apply list_elem_of_filter. split; [| exact Hb].
        apply Is_true_true_2, Hon. }
      destruct (filter (fun b => on a b) r) as [| b0 bs] eqn:Hf;
        [inversion Hin |].
      rewrite <- Hf. apply list_elem_of_fmap. exists b.
      split; [reflexivity |]. rewrite Hf. exact Hin.
    + destruct (filter (fun b => on a b) r) as [| b0 bs] eqn:Hf;
        [apply list_elem_of_singleton; reflexivity |].
      assert (Hin : b0 ∈ filter (fun b => on a b) r) by (rewrite Hf; left).
      apply list_elem_of_filter in Hin as [Hon Hb].
      apply Hob in Hb. rewrite Hb in Hon. destruct Hon.
Qed.

Lemma elem_of_group_by {A K} `{EqDecision K} (key : A -> K) (l : list A)
    (k : K) (rows : list A) :
  (k, rows) ∈ group_by key l <->
  (exists r, r ∈ l /\ key r = k) /\ rows = filter (fun r => key r = k) l.
Proof.
  unfold group_by. rewrite list_elem_of_fmap. split.
  - intros (k' & [= -> ->] & Hk).
    apply (proj1 (elem_of_remove_dups _ _)) in Hk.
    apply list_elem_of_fmap in Hk as (r & -> & Hr). eauto.
  - intros [(r & Hr & <-) ->]. exists (key r). split; [reflexivity |].
    apply elem_of_remove_dups, list_elem_of_fmap. eauto.
Qed.

Lemma on_transaction_spec p t :
  on_transaction p t = true <->
  row_status t = completed
  /\ (row_source_account_id t = Some (Zpos p)
      \/ row_destination_account_id t = Some (Zpos p)).
Proof.
  unfold on_transaction.
  rewrite andb_true_iff, orb_true_iff, !bool_decide_eq_true. tauto.
Qed.

(** The rows of a group all belong to the account of the group's key, and
    carry either no transaction or one that the join condition admits. *)
Lemma joined_row d au ot :
  (au, ot) ∈ joined d ->
  match ot with
  | Some t => t ∈ completed_for d au.1.1
  | None => completed_for d au.1.1 = []
  end.
Proof.
  unfold joined. intros H. apply elem_of_left_join in H as [_ H].
  unfold completed_for. destruct ot as [t |].
  - destruct H as [Ht Hon]. apply list_elem_of_filter.
    split; [apply on_transaction_spec, Hon | exact Ht].
  - apply elem_of_nil_inv. intros t Ht.
    apply list_elem_of_filter in Ht as [Hon Ht].
    apply on_transaction_spec in Hon. rewrite (H t Ht) in Hon. discriminate.
Qed.

Lemma joined_partner d au ot t :
  (au, ot) ∈ joined d -> t ∈ completed_for d au.1.1 ->
  (au, Some t) ∈ joined d.
Proof.
  unfold joined, completed_for. intros H Ht.
  apply elem_of_left_join in H as [Hau _].
  apply list_elem_of_filter in Ht as [Hon Ht].
  apply elem_of_left_join. split; [exact Hau |].
  split; [exact Ht | apply on_transaction_spec, Hon].
Qed.

(** C7. For every account of the summary report, [largest_transaction] is
    the largest amount among the completed transactions that reference
    the account as source or as destination, and zero when there is no
    such transaction. *)
Theorem c7_largest_transaction (d : DB) (s : AccountSummary) :
  s ∈ report_accounts (getSummaryReport d) ->
  largest_amount_or_zero (completed_for d (account_id s)) (largest_transaction s).
Proof.
  simpl. unfold accountRows. intros Hs.
  apply list_elem_of_fmap in Hs as ([k rows] & -> & Hg).
  apply elem_of_group_by in Hg as [([au0 ot0] & Hr0 & Hk) ->].
  unfold summarise. simpl.
  set (p := k.1.1.1).
  assert (Hp0 : au0.1.1 = p) by (subst p; rewrite <- Hk; reflexivity).
  set (L := (fun r : JoinedRow => row_amount <$> r.2)
              <$> filter (fun r => group_key r = k) (joined d)).
  assert (HA : forall x, Some x ∈ L ->
                 exists t, t ∈ completed_for d p /\ row_amount t = x).
  { intros x Hx. apply list_elem_of_fmap in Hx as ([au ot] & Hx & Hr).
    apply list_elem_of_filter in Hr as [Hkey Hr].
    assert (au.1.1 = p) as <- by (subst p; rewrite <- Hkey; reflexivity).
    apply joined_row in Hr. simpl in Hx.
    destruct ot as [t |]; [| discriminate].
    injection Hx as ->. eauto. }
  assert (HB : forall t, t ∈ completed_for d p -> Some (row_amount t) ∈ L).
  { intros t Ht. apply list_elem_of_fmap. exists (au0, Some t).
    split; [reflexivity |]. apply list_elem_of_filter.
    split; [exact Hk |]. rewrite <- Hp0 in Ht.
    eapply joined_partner; eassumption. }
  pose proof (MAX_spec L) as HM. unfold COALESCE.
  destruct (MAX L) as [m |]; simpl.
  - destruct HM as [Hm Hle]. apply HA in Hm as (t & Ht & Hamt).
    split; [intros Hnil; rewrite Hnil in Ht; inversion Ht |].
    split; [eauto |]. intros t' Ht'. apply Hle, HB, Ht'.
  - assert (Hnil : completed_for d p = []).
    { apply elem_of_nil_inv. intros t Ht.
      apply HB, HM in Ht. discriminate. }
    rewrite Hnil. split; [reflexivity |].
    split; [congruence |]. intros t Ht. inversion Ht.
Qed.

Lemma c7_witness :
  let d := with_transactions seed
             [mkRow "t1" deposit 700 None (Some 1) completed None;
              mkRow "t2" transfer 30000 (Some 1) (Some 2) completed None;
              mkRow "t3" withdrawal 500000 (Some 1) None failed
                (Some "Insufficient funds")] in
  let s := mkAccountSummary 1 "ACC001" (Some "alice") 100000 30000 in
  s ∈ report_accounts (getSummaryReport d)
  /\ largest_amount_or_zero (completed_for d 1) 30000.
Proof.
  intros d s.
  assert (Hs : s ∈ report_accounts (getSummaryReport d))
    by (vm_compute; right; left).
  exact (conj Hs (c7_largest_transaction d s Hs)).
Defined.

Lemma left_join_total {A B} (on : A -> B -> bool) (l : list A) (r : list B) a :
  a ∈ l -> exists ob, (a, ob) ∈ left_join on l r.
Proof.
  intros Ha. destruct (filter (fun b => on a b) r) as [| b bs] eqn:Hf.
  - exists None. apply elem_of_left_join. split; [exact Ha |].
    intros b Hb. destruct (on a b) eqn:Hon; [| reflexivity].
    exfalso. eapply (filter_nil_not_elem_of _ _ _ Hf); [| exact Hb].
    simpl. rewrite Hon. exact I.
  - assert (Hb : b ∈ filter (fun b => on a b) r) by (rewrite Hf; left).
    apply list_elem_of_filter in Hb as [Hon Hb].
    exists (Some b). apply elem_of_left_join.
    split; [exact Ha |]. split; [exact Hb | apply Is_true_true_1, Hon].
Qed.

(** Every account has its line in the report, with its balance. *)
Lemma report_covers_accounts d p a :
  accounts d !! p = Some a ->
  exists s, s ∈ report_accounts (getSummaryReport d)
            /\ account_id s = p /\ current_balance s = balance a.
Proof.
  intros Ha. apply elem_of_map_to_list in Ha.
  destruct (left_join_total (fun a u => bool_decide (user_id a.2 = u.1))
              _ (map_to_list (users d)) _ Ha) as [ou Hau].
  destruct (left_join_total (fun au t => on_transaction au.1.1 t)
              _ (transactions d) _ Hau) as [ot Hr].
  fold (joined d) in Hr.
  exists (summarise (group_key (p, a, ou, ot),
                     filter (fun r => group_key r = group_key (p, a, ou, ot))
                       (joined d))).
  split; [| split; reflexivity].
  simpl. unfold accountRows. apply list_elem_of_fmap. eexists.
  split; [reflexivity |]. apply elem_of_group_by. eauto.
Qed.

(** ** The route *)

Import Middleware.

(** Whoever the caller and whatever the request, a source account that
    exists and belongs to somebody else is answered with status 400: the
    handler's own [catch] turns its 403 into a 400, and the error handler
    has no entry for the message. *)
Lemma foreign_source_is_answered_400 secretKey b tid d u src acct :
  authenticateUser secretKey d = inr u ->
  schemas_transaction b = true ->
  present (source_account_id b) = Some src ->
  AccountService.findById src d = Some acct ->
  user_id acct <> auth_id u ->
  Route.postTransaction secretKey b tid d =
  ({| res_status := 400;
      res_body := ErrorJson "INTERNAL_ERROR"
                    "Unauthorized access to source account" |}, d).
Proof.
  intros Hauth Hval Hsrc Hacct Hne.
  unfold Route.postTransaction, validate. rewrite Hauth, Hval.
  unfold TransactionController.submitTransaction,
    TransactionController.submitBody, TransactionController.checkAccount.
  simpl. rewrite Hsrc, Hacct.
  rewrite bool_decide_eq_false_2 by exact Hne. reflexivity.
Qed.

(** A source account that does not exist is answered with status 404:
    the handler's [catch] makes it a 400, and the error handler restores
    the 404 from the message. *)
Lemma missing_source_is_answered_404 secretKey b tid d u src :
  authenticateUser secretKey d = inr u ->
  schemas_transaction b = true ->
  present (source_account_id b) = Some src ->
  AccountService.findById src d = None ->
  Route.postTransaction secretKey b tid d =
  ({| res_status := 404;
      res_body := ErrorJson "SOURCE_ACCOUNT_NOT_FOUND"
                    "Source account not found" |}, d).
Proof.
  intros Hauth Hval Hsrc Hacct.
  unfold Route.postTransaction, validate. rewrite Hauth, Hval.
  unfold TransactionController.submitTransaction,
    TransactionController.submitBody, TransactionController.checkAccount.
  simpl. rewrite Hsrc, Hacct. reflexivity.
Qed.

(** C5 at its failing input.  Alice, authenticated, asks for a withdrawal
    from Bob's account with a body that passes validation: the answer has
    status 400, not 403, and nothing is written. *)
Theorem c5_foreign_account_is_answered_400 :
  authenticateUser (Some "key-alice") seed = inr (mkAuthUser 1 alice)
  /\ schemas_transaction foreign_withdrawal = true
  /\ (user_id <$> AccountService.findById 2 seed) = Some 2%positive
  /\ Route.postTransaction (Some "key-alice") foreign_withdrawal "tx-1" seed
     = ({| res_status := 400;
           res_body := ErrorJson "INTERNAL_ERROR"
                         "Unauthorized access to source account" |}, seed).
Proof.
  repeat split; vm_compute; reflexivity.
Qed.

(** A transfer to an account that does not exist, from the caller's own
    account, is answered with status 400, not 404: the handler does not
    look the destination up, and the store rejects the ledger row. *)
Lemma missing_transfer_destination_is_answered_400 :
  res_status
    (Route.postTransaction (Some "key-alice")
       (mkData transfer 100 (Some 1) (Some 9)) "tx-1" seed).1 = 400.
Proof. vm_compute. reflexivity. Qed.

(** ** Two submissions at once *)

Import Concurrent.

(** C6 at its failing input.  Account 1 holds 1000.00 and two withdrawals
    of 800.00 arrive together; each is covered, both together are not.
    When both read the balance before either writes it, both pass the
    sufficient-funds check and both send their debit.  The second debit
    waits for the first to commit and is then stopped by the check
    constraint of the store: its submission ends with that error, not
    with a failed transaction.  This holds at either isolation level. *)
Theorem c6_both_withdrawals_pass_the_check (iso : Isolation) :
  let w := schedule (race iso seed (withdraw_800, "tx-1") (withdraw_800, "tx-2"))
             both_read_first in
  covered seed 1 (amount withdraw_800) = true
  /\ covered seed 1 (amount withdraw_800 + amount withdraw_800) = false
  /\ filter isUpdate (trace (first w)) = [stmt (UpdateBalance (-80000) 1)]
  /\ filter isUpdate (trace (second w)) = [stmt (UpdateBalance (-80000) 1)]
  /\ (status <$> match outcome (first w) with
                 | Some (Ok t) => Some t
                 | _ => None
                 end) = Some completed
  /\ outcome (second w)
     = Some (Throw (MysqlError ER_CHECK_CONSTRAINT_VIOLATED))
  /\ balance_of (store w) 1 = Some 20000.
Proof.
  destruct iso; vm_compute; repeat split; reflexivity.
Qed.

(** ** A session that runs alone is the sequential service *)

Lemma overlay_cleared st me : overlay st (cleared me) = st.
Proof.
  unfold overlay. simpl. rewrite (left_id_L ∅ (∪)), app_nil_r.
  destruct st; reflexivity.
Qed.

Lemma read_view_alone iso st me :
  snapshot me = None \/ snapshot me = Some st -> read_view iso st me = st.
Proof. intros [H | H]; destruct iso; simpl; rewrite ?H; reflexivity. Qed.

Lemma with_snapshot_alone iso st me :
  snapshot me = None \/ snapshot me = Some st ->
  overlay st (with_snapshot iso st me) = overlay st me
  /\ (snapshot (with_snapshot iso st me) = None
      \/ snapshot (with_snapshot iso st me) = Some st)
  /\ trace (with_snapshot iso st me) = trace me.
Proof.
  intros H. split; [reflexivity |]. split; [| reflexivity].
  destruct iso; simpl; [left; reflexivity |].
  right. f_equal. destruct H as [-> | ->]; reflexivity.
Qed.

Lemma existsb_never {A} (l : list A) : existsb (fun _ => false) l = false.
Proof. induction l as [| q l IH]; simpl; [reflexivity | exact IH]. Qed.

Lemma existsb_no_lock (l : list positive) :
  existsb (fun p => bool_decide (p ∈ (∅ : gset positive))) l = false.
Proof. apply existsb_never. Qed.

Lemma db_eta (d : DB) :
  {| users := users d; accounts := ∅ ∪ accounts d;
     transactions := transactions d ++ [];
     weight_string := weight_string d |} = d.
Proof.
  rewrite (left_id_L ∅ (∪)), app_nil_r. destruct d; reflexivity.
Qed.

Local Ltac settle :=
  eexists _, _; split; [reflexivity |]; unfold continue, overlay; simpl.

Local Opaque Store.update_balance Store.insert_transaction.

(** One statement: with nobody else holding a lock, the session is never
    kept waiting and the two interpreters do the same thing. *)
Lemma exec_alone iso {X} (s : Stmt X) c st me other :
  agrees c st me -> idle other ->
  exists st' me',
    Concurrent.exec iso st me other s
    = Some ((Store.exec s (logged s c)).1, st', me')
    /\ agrees (Store.exec s (logged s c)).2 st' (continue s (prog me) me').
Proof.
  intros (Hc & Hw & Hsnap & Hlog) (Hx & Hs & Hi).
  unfold agrees.
  destruct s; simpl.
  - (* BEGIN *)
    settle. rewrite (db_eta st), Hlog. auto.
  - (* COMMIT *)
    settle. rewrite (left_id_L ∅ (∪)), app_nil_r, Hlog. auto.
  - (* ROLLBACK *)
    settle. rewrite (db_eta st), Hlog. auto.
  - (* SELECT balance *)
    rewrite (read_view_alone iso st me Hsnap), Hw.
    settle. rewrite Hlog. repeat split; try assumption.
    destruct iso; simpl; [left; reflexivity |].
    right. f_equal. apply read_view_alone with (iso := REPEATABLE_READ).
    exact Hsnap.
  - (* UPDATE *)
    rewrite Hw. destruct id as [| p | p]; simpl.
    + settle. rewrite Hlog. auto.
    + rewrite Hx, Hs.
      rewrite bool_decide_eq_false_2
        by (rewrite (left_id_L ∅ (∪)); apply not_elem_of_empty).
      simpl.
      destruct (update_balance (overlay st me) delta (Z.pos p))
        as [[[] | e] d'] eqn:E; simpl.
      * settle. rewrite Hlog. repeat split; try assumption.
        apply update_balance_ok in E
          as [[Hnone ->] | (p' & a & [= <-] & Ha & _ & _ & ->)].
        -- simpl in Hnone. simpl. rewrite Hnone. reflexivity.
        -- simpl. rewrite lookup_insert_eq.
           unfold with_accounts. simpl.
           rewrite insert_union_l. reflexivity.
      * settle. rewrite Hlog. repeat split; try assumption.
        apply update_balance_throw in E as [-> _]. reflexivity.
    + settle. rewrite Hlog. auto.
  - (* INSERT *)
    rewrite Hw.
    destruct (insert_transaction (overlay st me) row) as [[[] | e] d'] eqn:E;
      simpl.
    + rewrite Hx, Hi. rewrite ?existsb_no_lock, ?existsb_never. simpl.
      settle.
      rewrite Hlog. repeat split; try assumption.
      apply insert_transaction_ok in E as (-> & _).
      unfold overlay, with_transactions. simpl.
      rewrite app_assoc. reflexivity.
    + settle.
      apply insert_transaction_throw in E as [-> _].
      rewrite Hlog. auto.
  - (* SELECT transaction *)
    rewrite (read_view_alone iso st me Hsnap), Hw.
    settle. rewrite Hlog. repeat split; try assumption.
    destruct iso; simpl; [left; reflexivity |].
    right. f_equal. apply read_view_alone with (iso := REPEATABLE_READ).
    exact Hsnap.
Qed.

Local Transparent Store.update_balance Store.insert_transaction.

Lemma schedule_app w l1 l2 :
  schedule w (l1 ++ l2) = schedule (schedule w l1) l2.
Proof. apply foldl_app. Qed.

(** A whole program: scheduled alone for long enough, the first session
    settles to what [Store.run] returns, on the same database, having
    executed the same statements. *)
Lemma run_alone iso (p : Prog Transaction) :
  forall c st me other,
    prog me = p -> agrees c st me -> idle other ->
    exists n st' me',
      schedule {| isolation := iso; store := st; first := me; second := other |}
        (replicate n First)
      = {| isolation := iso; store := st'; first := me'; second := other |}
      /\ outcome me' = Some (run p c).1
      /\ agrees (run p c).2 st' me'.
Proof.
  induction p as [t | e | X s k IH]; intros c st me other Hp Hag Hidle.
  - exists 0%nat, st, me. simpl. unfold outcome. rewrite Hp. auto.
  - exists 0%nat, st, me. simpl. unfold outcome. rewrite Hp. auto.
  - destruct (exec_alone iso s c st me other Hag Hidle) as (st1 & me1 & Hex & Hag1).
    destruct (IH (Store.exec s (logged s c)).1 (Store.exec s (logged s c)).2 st1
                (continue s (k (Store.exec s (logged s c)).1) me1) other
                eq_refl) as (n & st' & me' & Hsched & Hout & Hag');
      [exact Hag1 | exact Hidle |].
    exists (S n), st', me'. split; [| split; [exact Hout | exact Hag']].
    change (replicate (S n) First) with ([First] ++ replicate n First).
    rewrite schedule_app. rewrite <- Hsched. f_equal.
    simpl. unfold step_session. simpl. rewrite Hp, Hex. reflexivity.
Qed.

(** X26. A submission that is scheduled alone in [Concurrent] does what
    [Sequential.submit] does: same outcome, same database, same
    statements. *)
Lemma alone_is_sequential iso d (a b : CreateTransactionData * string) :
  exists n,
    let w := schedule (race iso d a b) (replicate n First) in
    outcome (first w) = Some (submit a.1 a.2 d).1
    /\ store w = committed (submit a.1 a.2 d).2
    /\ trace (first w) = log (submit a.1 a.2 d).2.
Proof.
  destruct (run_alone iso (submitTransaction a.1 a.2) (getConnection d) d
              (start (submitTransaction a.1 a.2))
              (start (submitTransaction b.1 b.2)) eq_refl)
    as (n & st' & me' & Hsched & Hout & Hc & _ & _ & Hlog).
  - unfold agrees, overlay. simpl. rewrite (db_eta d). auto.
  - repeat split.
  - exists n. cbn zeta. unfold race. rewrite Hsched. simpl.
    unfold submit, serve. auto.
Qed.

(** ** The engine's check comes before the store's *)

Lemma apply_updates_within_funds d data :
  non_negative d -> refusal d data = None ->
  (apply_updates d (movement data)).1
  <> Throw (MysqlError ER_CHECK_CONSTRAINT_VIOLATED).
Proof.
  intros Hd. unfold refusal, movement, covered, balance_of.
  destruct (Qle_bool (amount data) 0) eqn:Hpos; [discriminate |].
  apply Qle_bool_false in Hpos.
  assert (Hcredit : forall d0 dst w e,
            non_negative d0 ->
            update_balance d0 (amount data) dst = (Throw e, w) ->
            e <> MysqlError ER_CHECK_CONSTRAINT_VIOLATED).
  { intros d0 dst w e Hd0 E.
    apply update_balance_throw in E
      as (_ & p & a & -> & Ha & [[-> _] | [_ Hneg]]); [discriminate |].
    apply Hd0 in Ha. simpl in Ha.
    pose proof (balance_plus_credit (balance a) (amount data) Ha
                  ltac:(lra)) as Hb.
    pose proof (to_decimal_non_negative (amount data) ltac:(lra)). lia. }
  assert (Hdebit : forall src w e,
            match balance <$> account_by_id (accounts d) src with
            | Some b => Qle_bool (amount data) (inject_Z b)
            | None => false
            end = true ->
            update_balance d (- amount data) src = (Throw e, w) ->
            e <> MysqlError ER_CHECK_CONSTRAINT_VIOLATED).
  { intros src w e Hcov E.
    apply update_balance_throw in E
      as (_ & p & a & -> & Ha & [[-> _] | [_ Hneg]]); [discriminate |].
    simpl in Hcov. rewrite Ha in Hcov. simpl in Hcov.
    apply Qle_bool_iff in Hcov.
    pose proof (balance_plus_debit (balance a) (amount data)
                  ltac:(lra) Hcov). lia. }
  destruct (type data).
  - destruct (present (destination_account_id data)) as [dst |];
      [| discriminate].
    intros _.
    destruct (present (source_account_id data)); cbn [apply_updates];
      destruct (update_balance d (amount data) dst) as [[[] | e] w] eqn:E;
      simpl; try discriminate; intros [= ->];
      eapply Hcredit; eauto.
  - destruct (present (source_account_id data)) as [src |]; [| discriminate].
    destruct (match balance <$> account_by_id (accounts d) src with
              | Some b => Qle_bool (amount data) (inject_Z b)
              | None => false
              end) eqn:Hcov; [| discriminate].
    intros _. cbn [apply_updates].
    destruct (update_balance d (- amount data) src) as [[[] | e] w] eqn:E;
      simpl; try discriminate; intros [= ->].
    eapply Hdebit; eauto.
  - destruct (present (source_account_id data)) as [src |]; [| discriminate].
    destruct (present (destination_account_id data)) as [dst |];
      [| discriminate].
    destruct (match balance <$> account_by_id (accounts d) src with
              | Some b => Qle_bool (amount data) (inject_Z b)
              | None => false
              end) eqn:Hcov; [| discriminate].
    intros _. cbn [apply_updates].
    destruct (update_balance d (- amount data) src) as [[[] | e] w] eqn:E.
    + pose proof (update_balance_non_negative d (- amount data) src Hd) as Hw.
      rewrite E in Hw. simpl in Hw.
      destruct (update_balance w (amount data) dst) as [[[] | e] w'] eqn:E';
        simpl; try discriminate; intros [= ->].
      eapply Hcredit; eauto.
    + simpl. intros [= ->]. eapply Hdebit; eauto.
Qed.

(** Handled one at a time, from balances at or above zero, no submission
    ever runs into the check constraint of the store: the engine's own
    check has refused the request before. *)
Lemma check_constraint_is_never_reached data tid d :
  non_negative d ->
  (submit data tid d).1 <> Throw (MysqlError ER_CHECK_CONSTRAINT_VIOLATED).
Proof.
  intros Hd. destruct (refusal d data) as [why |] eqn:Hwhy.
  - destruct (submit_refused data tid d why Hwhy) as [_ H].
    rewrite submit_eq.
    destruct (run_refused data why (opened d) Hwhy) as (c & -> & Hw & _).
    cbn zeta. simpl fst; simpl snd. rewrite Hw. simpl.
    destruct (insert_transaction d _) as [[[] | e] d'] eqn:E; simpl;
      [discriminate |].
    apply insert_transaction_throw in E as (_ & q & -> & Hq). congruence.
  - pose proof (apply_updates_within_funds d data Hd Hwhy) as Hupd.
    rewrite submit_eq.
    destruct (run_admitted data (opened d) Hwhy) as (c & -> & Hw & _).
    change (working (opened d)) with d in *.
    destruct (apply_updates d (movement data)) as [[[] | e] w]; simpl in *.
    + destruct (insert_transaction (working c) _) as [[[] | e] d'] eqn:E;
        simpl; [discriminate |].
      apply insert_transaction_throw in E as (_ & q & -> & Hq). congruence.
    + intros [= ->]. apply Hupd. reflexivity.
Qed.

Lemma seed_non_negative : non_negative seed.
Proof.
  unfold non_negative, seed. simpl.
  apply map_Forall_insert_2; [simpl; lia |].
  apply map_Forall_singleton. simpl. lia.
Defined.

Lemma c1_witness :
  non_negative seed
  /\ non_negative
       (submitAll [(mkData withdrawal 500000 (Some 1) None, "tx-1");
                   (mkData transfer 30000 (Some 1) (Some 2), "tx-2");
                   (mkData deposit (-5) None (Some 2), "tx-3")] seed).
Proof.
  split; [exact seed_non_negative |].
  apply c1_balances_stay_non_negative. exact seed_non_negative.
Defined.

(** ** Two connections: balances stay at or above zero *)

Lemma overlay_non_negative st me :
  non_negative st -> writes_non_negative me -> non_negative (overlay st me).
Proof. intros Hst Hme. apply map_Forall_union_2; assumption. Qed.

Local Opaque Store.update_balance Store.insert_transaction.

Lemma exec_non_negative_concurrent iso {X} (s : Stmt X) st me other r st' me' :
  non_negative st -> writes_non_negative me ->
  Concurrent.exec iso st me other s = Some (r, st', me') ->
  non_negative st' /\ writes_non_negative me'.
Proof.
  intros Hst Hme.
  assert (Hempty : writes_non_negative (cleared me)) by apply map_Forall_empty.
  destruct s; simpl.
  - intros [= <- <- <-]. auto.
  - intros [= <- <- <-]. split; [apply overlay_non_negative; assumption | auto].
  - intros [= <- <- <-]. auto.
  - intros [= <- <- <-]. auto.
  - destruct id as [| p | p]; simpl; try (intros [= <- <- <-]; auto).
    case_match; [discriminate |]. intros [= <- <- <-].
    split; [exact Hst |]. unfold writes_non_negative. simpl.
    pose proof (update_balance_non_negative (overlay st me) delta (Z.pos p)
                  (overlay_non_negative st me Hst Hme)) as Hupd.
    destruct (update_balance (overlay st me) delta (Z.pos p)) as [[[] | e] d'];
      simpl in *; [| exact Hme].
    destruct (accounts d' !! p) as [a |] eqn:Ha; [| exact Hme].
    apply map_Forall_insert_2; [| exact Hme]. exact (Hupd p a Ha).
  - destruct (insert_transaction (overlay st me) row) as [[[] | e] d']; simpl.
    + case_match; [discriminate |]. intros [= <- <- <-]. auto.
    + intros [= <- <- <-]. auto.
  - intros [= <- <- <-]. auto.
Qed.

Local Transparent Store.update_balance Store.insert_transaction.

Lemma step_non_negative w who :
  non_negative (store w) ->
  writes_non_negative (first w) -> writes_non_negative (second w) ->
  non_negative (store (step w who))
  /\ writes_non_negative (first (step w who))
  /\ writes_non_negative (second (step w who)).
Proof.
  intros Hst H1 H2. destruct who; simpl; unfold step_session.
  - destruct (prog (first w)) as [t | e | X s k]; simpl; auto.
    destruct (Concurrent.exec _ _ _ _ s) as [[[r st'] me'] |] eqn:E;
      simpl; auto.
    destruct (exec_non_negative_concurrent _ s _ _ _ _ _ _ Hst H1 E). auto.
  - destruct (prog (second w)) as [t | e | X s k]; simpl; auto.
    destruct (Concurrent.exec _ _ _ _ s) as [[[r st'] me'] |] eqn:E;
      simpl; auto.
    destruct (exec_non_negative_concurrent _ s _ _ _ _ _ _ Hst H2 E). auto.
Qed.

(** Whatever the two programs and however their statements interleave,
    the committed balances stay at or above zero: the store checks every
    written value, and a row cannot change under the lock of its writer. *)
Lemma schedule_non_negative order :
  forall w,
    non_negative (store w) ->
    writes_non_negative (first w) -> writes_non_negative (second w) ->
    non_negative (store (schedule w order)).
Proof.
  induction order as [| who order IH]; intros w Hst H1 H2; simpl.
  - exact Hst.
  - destruct (step_non_negative w who Hst H1 H2) as (Hst' & H1' & H2').
    apply IH; assumption.
Qed.

(** X27. Two submissions on two connections, their statements
    interleaved in any order and under either isolation level, never leave
    a negative balance in the committed database, provided there was
    none before. *)
Lemma race_non_negative iso d a b order :
  non_negative d -> non_negative (store (schedule (race iso d a b) order)).
Proof.
  intros Hd. apply schedule_non_negative;
    [exact Hd | apply map_Forall_empty | apply map_Forall_empty].
Qed.

(** ** Two submissions at once: the check is not serialized *)

Local Opaque Qle_bool Qopp inject_Z.

(** X28. Whatever the balance and the two amounts, as long as each amount is
    covered on its own: once both sessions have begun and read the
    balance, both have passed the sufficient-funds check and stand before
    their debit.  Nothing here depends on the two amounts being covered
    together. *)
Lemma both_pass_the_check iso d p acct (x y : Q) t1 t2 :
  accounts d !! p = Some acct ->
  (0 < x)%Q -> (x <= inject_Z (balance acct))%Q ->
  (0 < y)%Q -> (y <= inject_Z (balance acct))%Q ->
  let w := schedule (race iso d (mkData withdrawal x (Some (Zpos p)) None, t1)
                       (mkData withdrawal y (Some (Zpos p)) None, t2))
             [First; First; Second; Second] in
  (exists k, prog (first w) = Do (UpdateBalance (- x) (Zpos p)) k)
  /\ (exists k, prog (second w) = Do (UpdateBalance (- y) (Zpos p)) k).
Proof.
  intros Ha Hx Hxb Hy Hyb w. subst w.
  apply Qle_bool_false in Hx, Hy. apply Qle_bool_iff in Hxb, Hyb.
  unfold race, schedule, submitTransaction, submitBody, validateAndProcess.
  cbn [foldl fst snd amount type source_account_id destination_account_id].
  rewrite Hx, Hy. cbn [present Z.eqb].
  destruct iso; cbn; unfold select_balance, account_by_id; cbn;
    rewrite (left_id_L ∅ (∪)), Ha; cbn; rewrite Hxb, Hyb; cbn; eauto.
Qed.

Local Transparent Qle_bool Qopp inject_Z.

(** * Further properties of the code *)

(** ** Every way in which a submission can end *)

Lemma submit_cases data tid d :
  let r := submit data tid d in
  (exists e, r.1 = Throw e /\ committed r.2 = d)
  \/ exists row w,
       r.1 = Ok (mapRowToTransaction row)
       /\ committed r.2 = with_transactions w (transactions w ++ [row])
       /\ ledger_accepts w row = true
       /\ ((exists why, refusal d data = Some why
                        /\ row = newRow data tid failed (Some why) /\ w = d)
           \/ (refusal d data = None
               /\ row = newRow data tid completed None
               /\ apply_updates d (movement data) = (Ok tt, w))).
Proof.
  intros r. subst r. destruct (refusal d data) as [why |] eqn:Hwhy.
  - destruct (submit_refused data tid d why Hwhy) as [_ H].
    destruct (ledger_accepts d _) eqn:Hacc.
    + destruct H as [Hr Hd]. right. eexists _, d. eauto 10.
    + destruct H as [[q Hr] Hd]. left. eauto.
  - pose proof (submit_admitted data tid d Hwhy) as H. cbn zeta in H.
    destruct (apply_updates d (movement data)) as [[[] | e] w] eqn:Hrun.
    + destruct (ledger_accepts w _) eqn:Hacc.
      * destruct H as [Hr Hd]. right. eexists _, w. eauto 10.
      * destruct H as [[q Hr] Hd]. left. eauto.
    + destruct H as [Hr Hd]. left. eauto.
Qed.

(** ** What balance updates leave alone *)

Lemma update_balance_frame d delta id u w :
  update_balance d delta id = (Ok u, w) ->
  users w = users d /\ transactions w = transactions d
  /\ holders w = holders d /\ weight_string w = weight_string d
  /\ forall id',
       balance_of w id' =
       (fun b => if decide (id' = id) then balance_plus b delta else b)
       <$> balance_of d id'.
Proof.
  intros E.
  assert (Hid : forall o : option Z, o = (fun b => b) <$> o).
  { intros [b |]; reflexivity. }
  apply update_balance_ok in E as [[Hnone ->] | (p & a & -> & Ha & _ & _ & ->)].
  - split_and!; try reflexivity. intros id'. unfold balance_of.
    destruct (decide (id' = id)) as [-> | _]; [| apply Hid].
    rewrite Hnone. reflexivity.
  - split_and!; try reflexivity.
    + unfold holders. simpl. rewrite fmap_insert. apply insert_id.
      rewrite lookup_fmap, Ha. reflexivity.
    + intros id'. unfold balance_of. simpl.
      destruct id' as [| q | q]; try reflexivity. simpl.
      destruct (decide (q = p)) as [-> | Hne].
      * rewrite lookup_insert_eq, Ha. simpl.
        rewrite decide_True by reflexivity. reflexivity.
      * rewrite lookup_insert_ne by congruence.
        destruct (accounts d !! q); simpl; [| reflexivity].
        rewrite decide_False by congruence. reflexivity.
Qed.

Lemma apply_updates_frame l : forall d w,
  apply_updates d l = (Ok tt, w) ->
  users w = users d /\ transactions w = transactions d
  /\ holders w = holders d /\ weight_string w = weight_string d
  /\ forall id, balance_of w id = settled l id <$> balance_of d id.
Proof.
  induction l as [| [delta i] l IH]; intros d w; simpl.
  - intros [= <-]. split_and!; try reflexivity. intros id.
    destruct (balance_of d id); reflexivity.
  - destruct (update_balance d delta i) as [[[] | e] d1] eqn:E; [| discriminate].
    intros Hrest.
    apply update_balance_frame in E as (Hu & Ht & Hh & Hw & Hb).
    apply IH in Hrest as (Hu' & Ht' & Hh' & Hw' & Hb').
    rewrite Hu', Ht', Hh', Hw'. split_and!; try assumption.
    intros id. rewrite Hb', Hb.
    destruct (balance_of d id); reflexivity.
Qed.

(** The updates of a request in whole hundredths change each balance by
    what its ledger row says. *)
Lemma settled_movement data tid d id b :
  refusal d data = None -> whole_hundredths (amount data) ->
  settled (movement data) id b
  = b + row_effect id (newRow data tid completed None).
Proof.
  intros Hadm Hwhole. revert Hadm.
  pose proof (proj1 (balance_plus_whole b (amount data) Hwhole)) as Hplus.
  pose proof (proj2 (balance_plus_whole b (amount data) Hwhole)) as Hminus.
  pose proof (proj1 (balance_plus_whole (b - to_decimal (amount data))
                       (amount data) Hwhole)) as Hboth.
  unfold refusal, movement, settled, row_effect. simpl.
  destruct (Qle_bool (amount data) 0); [discriminate |].
  destruct (type data);
    destruct (present (source_account_id data)) as [src |];
    destruct (present (destination_account_id data)) as [dst |];
    try discriminate; intros _; simpl;
    repeat match goal with
           | |- context [decide (id = ?x)] => destruct (decide (id = x))
           | |- context [decide (Some ?x = Some id)] =>
               destruct (decide (Some x = Some id))
           | |- context [decide (None = Some id)] =>
               destruct (decide (None = Some id))
           end; try congruence; rewrite ?Hminus, ?Hboth, ?Hplus; lia.
Qed.

Lemma admitted_row_is_engine_row data tid d :
  refusal d data = None -> engine_row (newRow data tid completed None).
Proof.
  unfold refusal, engine_row. simpl.
  destruct (Qle_bool (amount data) 0) eqn:Hpos; [discriminate |].
  apply Qle_bool_false in Hpos.
  pose proof (to_decimal_non_negative (amount data) ltac:(lra)).
  destruct (type data);
    destruct (present (source_account_id data)) as [src |];
    destruct (present (destination_account_id data)) as [dst |];
    try discriminate; intros _; eauto 10.
Qed.

(** One submission, as a step from one database to the next: nothing at
    all, or one new row on top of balances that, for an amount in whole
    hundredths, the row accounts for. *)
Lemma after_cases data tid d :
  after data tid d = d
  \/ exists row w,
       after data tid d = with_transactions w (transactions w ++ [row])
       /\ ledger_accepts w row = true
       /\ row_transaction_id row = tid
       /\ users w = users d /\ transactions w = transactions d
       /\ holders w = holders d
       /\ engine_row row
       /\ (whole_hundredths (amount data) ->
           forall id,
             balance_of w id
             = (fun b => b + row_effect id row) <$> balance_of d id).
Proof.
  unfold after.
  destruct (submit_cases data tid d)
    as [(e & _ & Hd) | (row & w & _ & Hd & Hacc & Hrow)]; [left; exact Hd |].
  right. exists row, w. split; [exact Hd |]. split; [exact Hacc |].
  destruct Hrow as [(why & Hwhy & -> & ->) | (Hwhy & -> & Hrun)].
  - split_and!; try reflexivity; [unfold engine_row; simpl; eauto |].
    intros _ id. unfold row_effect. simpl.
    destruct (balance_of d id); simpl; [f_equal; lia | reflexivity].
  - apply apply_updates_frame in Hrun as (Hu & Ht & Hh & _ & Hb).
    split_and!; try assumption; try reflexivity.
    + eapply admitted_row_is_engine_row, Hwhy.
    + intros Hwhole id. rewrite Hb.
      destruct (balance_of d id) as [b |]; [| reflexivity]. simpl.
      rewrite (settled_movement data tid d id b Hwhy Hwhole). reflexivity.
Qed.

Lemma ledger_effect_snoc l row id :
  ledger_effect (l ++ [row]) id = ledger_effect l id + row_effect id row.
Proof.
  unfold ledger_effect. induction l as [| r l IH]; simpl; [lia |].
  rewrite IH. lia.
Qed.

Lemma fresh_not_elem l tid :
  has_transaction_id l tid = false -> tid ∉ row_transaction_id <$> l.
Proof.
  induction l as [| r l IH]; simpl; intros H.
  - intros Hin. inversion Hin.
  - apply orb_false_iff in H as [Hr Hl]. apply String.eqb_neq in Hr.
    intros Hin. apply elem_of_cons in Hin as [-> | Hin]; [congruence |].
    exact (IH Hl Hin).
Qed.

Lemma accepted_row d row :
  ledger_accepts d row = true ->
  decimal_15_2 (row_amount row) = true
  /\ has_transaction_id (transactions d) (row_transaction_id row) = false
  /\ references_account (accounts d) (row_source_account_id row) = true
  /\ references_account (accounts d) (row_destination_account_id row) = true.
Proof.
  unfold ledger_accepts. intros H.
  apply andb_prop in H as [H Hdst]. apply andb_prop in H as [H Hsrc].
  apply andb_prop in H as [Hrange Hfresh]. apply negb_true_iff in Hfresh.
  auto.
Qed.

Lemma references_same_holders d d' ref :
  holders d' = holders d ->
  references_account (accounts d') ref = references_account (accounts d) ref.
Proof.
  intros H. destruct ref as [[| p | p] |]; simpl; try reflexivity.
  assert (Hp : holders d' !! p = holders d !! p) by (rewrite H; reflexivity).
  unfold holders in Hp. rewrite !lookup_fmap in Hp.
  destruct (accounts d' !! p), (accounts d !! p); try discriminate;
    [| reflexivity].
  rewrite !bool_decide_eq_true_2 by eauto. reflexivity.
Qed.

(** ** One submission *)

(** X1. A submission either returns a transaction or throws.  When it
    returns, the transaction repeats the request (identifier, type, the
    amount rounded to the hundredth as the ledger column stores it, the
    references that are present), it has a failure reason
    exactly when its status is failed, the ledger has exactly one more
    row, which is that transaction, a failed one leaves every balance as
    it was, and neither the users nor the number and owner of any account
    have changed.  When it throws, the database is as it was. *)
Theorem submission_all_or_nothing
    (data : CreateTransactionData) (tid : string) (d : DB) :
  let r := submit data tid d in
  match r.1 with
  | Throw _ => committed r.2 = d
  | Ok t =>
      transaction_id t = tid /\ tx_type t = type data
      /\ tx_amount t = to_decimal (amount data)
      /\ tx_source_account_id t = present (source_account_id data)
      /\ tx_destination_account_id t = present (destination_account_id data)
      /\ (status t = failed <-> is_Some (failure_reason t))
      /\ (exists row, mapRowToTransaction row = t
                      /\ transactions (committed r.2) = transactions d ++ [row])
      /\ (status t = failed -> accounts (committed r.2) = accounts d)
      /\ users (committed r.2) = users d
      /\ holders (committed r.2) = holders d
  end.
Proof.
  intros r. subst r.
  destruct (submit_cases data tid d)
    as [(e & -> & Hd) | (row & w & -> & -> & _ & Hrow)]; [exact Hd |].
  destruct Hrow as [(why & _ & -> & ->) | (_ & -> & Hrun)].
  - simpl. split_and!; try reflexivity; eauto.
    split; [eauto | reflexivity].
  - apply apply_updates_frame in Hrun as (Hu & Ht & Hh & _).
    simpl. split_and!; try reflexivity; try assumption.
    + split; [discriminate | intros [? ?]; discriminate].
    + rewrite Ht. eauto.
    + discriminate.
Qed.

(** ** Any number of submissions *)

Lemma submitAll_rel (R : DB -> DB -> Prop) :
  (forall d0 d data tid, R d0 d -> R d0 (after data tid d)) ->
  forall ops d0 d, R d0 d -> R d0 (submitAll ops d).
Proof.
  intros Hstep ops. induction ops as [| [data tid] ops IH]; intros d0 d H.
  - exact H.
  - apply (IH d0 (after data tid d)), Hstep, H.
Qed.

(** X2. The ledger only grows: whatever is submitted, the rows that were
    there stay where they were, unchanged and in order, and each
    submission adds at most one row. *)
Theorem ledger_only_grows (ops : list (CreateTransactionData * string)) (d : DB) :
  transactions d `prefix_of` transactions (submitAll ops d)
  /\ (length (transactions (submitAll ops d))
      <= length (transactions d) + length ops)%nat.
Proof.
  revert d. induction ops as [| [data tid] ops IH]; intros d.
  - simpl. split; [reflexivity | lia].
  - change (submitAll ((data, tid) :: ops) d)
      with (submitAll ops (after data tid d)).
    destruct (after_cases data tid d)
      as [Heq | (row & w & Heq & _ & _ & _ & Ht & _)]; rewrite Heq.
    + destruct (IH d) as [Hpre Hlen]. split; [exact Hpre | simpl; lia].
    + destruct (IH (with_transactions w (transactions w ++ [row])))
        as [Hpre Hlen].
      simpl in Hpre, Hlen. rewrite Ht in Hpre, Hlen.
      rewrite length_app in Hlen. simpl in Hlen.
      rewrite Ht. split; [| simpl; lia].
      transitivity (transactions d ++ [row]); [| exact Hpre].
      apply prefix_app_r. reflexivity.
Qed.

(** X3. No two rows of the ledger ever share a transaction identifier: a
    ledger with distinct identifiers has distinct identifiers after any
    sequence of submissions, whatever identifiers the generator hands
    out. *)
Theorem transaction_ids_stay_unique
    (ops : list (CreateTransactionData * string)) (d : DB) :
  unique_ids d -> unique_ids (submitAll ops d).
Proof.
  intros H. apply (submitAll_rel (fun _ d => unique_ids d)) with (d0 := d);
    [clear | exact H].
  intros _ d data tid Hd.
  destruct (after_cases data tid d)
    as [-> | (row & w & -> & Hacc & _ & _ & Ht & _)]; [exact Hd |].
  apply accepted_row in Hacc as (_ & Hfresh & _).
  unfold unique_ids in *. simpl. rewrite Ht in *.
  rewrite fmap_app. simpl. apply NoDup_app. split; [exact Hd |].
  split; [| apply NoDup_singleton].
  intros x Hx Hin. apply list_elem_of_singleton in Hin as ->.
  exact (fresh_not_elem _ _ Hfresh Hx).
Qed.

Lemma transaction_ids_stay_unique_witness :
  unique_ids seed /\ unique_ids (submitAll sample_ops seed).
Proof.
  assert (H : unique_ids seed) by apply NoDup_nil_2.
  exact (conj H (transaction_ids_stay_unique sample_ops seed H)).
Defined.

(** X4. Submissions move money and nothing else: after any sequence of
    them the same accounts exist, each with the account number and the
    owner it had, and the users are untouched. *)
Theorem accounts_keep_number_and_owner
    (ops : list (CreateTransactionData * string)) (d : DB) :
  holders (submitAll ops d) = holders d /\ users (submitAll ops d) = users d.
Proof.
  apply (submitAll_rel (fun d0 d => holders d = holders d0 /\ users d = users d0));
    [| split; reflexivity].
  clear. intros d0 d data tid [Hh Hu].
  destruct (after_cases data tid d)
    as [-> | (row & w & -> & _ & _ & Hu' & _ & Hh' & _)]; [auto |].
  simpl. unfold holders in *. simpl. split; congruence.
Qed.

(** X5. The ledger never refers to an account that does not exist: if
    every account reference of the ledger names an account, the same is
    true after any sequence of submissions. *)
Theorem references_stay_valid
    (ops : list (CreateTransactionData * string)) (d : DB) :
  references_exist d -> references_exist (submitAll ops d).
Proof.
  intros H. apply (submitAll_rel (fun _ d => references_exist d)) with (d0 := d);
    [clear | exact H].
  intros _ d data tid Hd.
  destruct (after_cases data tid d)
    as [-> | (row & w & -> & Hacc & _ & _ & Ht & Hh & _)]; [exact Hd |].
  apply accepted_row in Hacc as (_ & _ & Hsrc & Hdst).
  unfold references_exist in *. simpl. rewrite Ht.
  apply Forall_app. split; [| apply Forall_singleton; auto].
  eapply Forall_impl; [exact Hd |]. intros r [H1 H2].
  change (accounts (with_transactions w (transactions d ++ [row])))
    with (accounts w).
  rewrite !(references_same_holders d w) by exact Hh. auto.
Qed.

Lemma references_stay_valid_witness :
  references_exist seed /\ references_exist (submitAll sample_ops seed).
Proof.
  assert (H : references_exist seed) by apply Forall_nil_2.
  exact (conj H (references_stay_valid sample_ops seed H)).
Defined.

(** X6. Every row that the engine writes has the shape of its status: a
    completed row has an amount of zero or more (the positive amount of
    the request as the column rounds it, which is zero below half a
    hundredth), no failure reason and the account references that its type
    needs; a failed row has a failure reason.  A ledger of such rows stays
    one under any sequence of submissions. *)
Theorem ledger_rows_keep_their_shape
    (ops : list (CreateTransactionData * string)) (d : DB) :
  Forall engine_row (transactions d) ->
  Forall engine_row (transactions (submitAll ops d)).
Proof.
  intros H. apply (submitAll_rel (fun _ d => Forall engine_row (transactions d))) with (d0 := d);
    [clear | exact H].
  intros _ d data tid Hd.
  destruct (after_cases data tid d)
    as [-> | (row & w & -> & _ & _ & _ & Ht & _ & Hrow & _)]; [exact Hd |].
  simpl. rewrite Ht. apply Forall_app. split; [exact Hd |].
  apply Forall_singleton, Hrow.
Qed.

Lemma ledger_rows_keep_their_shape_witness :
  Forall engine_row (transactions seed)
  /\ Forall engine_row (transactions (submitAll sample_ops seed)).
Proof.
  assert (H : Forall engine_row (transactions seed)) by apply Forall_nil_2.
  exact (conj H (ledger_rows_keep_their_shape sample_ops seed H)).
Defined.

(** X7. The ledger accounts for every balance, as long as the amounts are
    whole numbers of hundredths.  After any sequence of such submissions,
    the balance of each account is its balance before plus what the rows
    added since say about it: the amounts of the completed deposits and
    transfers into it, minus the amounts of the completed withdrawals and
    transfers out of it.  Failed rows and thrown submissions count for
    nothing. *)
Theorem ledger_accounts_for_balances
    (ops : list (CreateTransactionData * string)) (d : DB) (id : Z) :
  Forall (fun op => whole_hundredths (amount op.1)) ops ->
  balance_of (submitAll ops d) id =
  (fun b => b + (ledger_effect (transactions (submitAll ops d)) id
                 - ledger_effect (transactions d) id))
  <$> balance_of d id.
Proof.
  intros Hops. revert d.
  induction Hops as [| [data tid] ops Hwhole _ IH]; intros d.
  - simpl. destruct (balance_of d id); simpl; [f_equal; lia | reflexivity].
  - change (submitAll ((data, tid) :: ops) d)
      with (submitAll ops (after data tid d)).
    rewrite (IH (after data tid d)).
    destruct (after_cases data tid d)
      as [-> | (row & w & -> & _ & _ & _ & Ht & _ & _ & Hb)]; [reflexivity |].
    change (balance_of (with_transactions w (transactions w ++ [row])) id)
      with (balance_of w id).
    simpl in Hwhole. rewrite (Hb Hwhole id). simpl.
    rewrite Ht, ledger_effect_snoc.
    destruct (balance_of d id); simpl; [f_equal; lia | reflexivity].
Qed.

Lemma ledger_accounts_for_balances_witness :
  balance_of (submitAll sample_ops seed) 1 =
  (fun b => b + (ledger_effect (transactions (submitAll sample_ops seed)) 1
                 - ledger_effect (transactions seed) 1))
  <$> balance_of seed 1.
Proof.
  apply (ledger_accounts_for_balances sample_ops seed 1).
  repeat constructor; vm_compute; reflexivity.
Defined.

(** For other amounts it need not: a withdrawal of half a hundredth
    (0.005) from account 1 is completed and recorded with the amount 0.01,
    and the balance of 1000.00 is as it was. *)
Lemma half_hundredth_withdrawal_is_recorded_not_debited :
  let r := submit (mkData withdrawal 0.5 (Some 1) None) "tx-1" seed in
  returns_completed r.1
  /\ (row_amount <$> last (transactions (committed r.2))) = Some 1
  /\ balance_of (committed r.2) 1 = balance_of seed 1.
Proof.
  split_and!; try (vm_compute; reflexivity).
  eexists. split_and!; vm_compute; reflexivity.
Qed.

(** ** Deposits and withdrawals that go through *)





(** X10. A deposit is not checked against the accounts: for a positive
    amount and a destination that matches no account, the update touches
    no row and raises nothing, the row is still marked completed, and the
    ledger insert is rejected by the foreign key.  The submission throws
    the store's error and the database is as it was. *)
Theorem deposit_to_missing_account_throws
    (data : CreateTransactionData) (tid : string) (d : DB) (dst : Z) :
  type data = deposit -> (0 < amount data)%Q ->
  present (destination_account_id data) = Some dst ->
  account_by_id (accounts d) dst = None ->
  let r := submit data tid d in
  refusal d data = None
  /\ apply_updates d (movement data) = (Ok tt, d)
  /\ raises_store_error r.1
  /\ committed r.2 = d.
Proof.
  intros Hty Hpos Hdst Habs r.
  assert (Hadm : refusal d data = None).
  { unfold refusal. rewrite Hty, Hdst.
    apply Qle_bool_false in Hpos. rewrite Hpos. reflexivity. }
  assert (Hrun : apply_updates d (movement data) = (Ok tt, d)).
  { unfold movement. rewrite Hty, Hdst.
    assert (Hupd : update_balance d (amount data) dst = (Ok tt, d)).
    { unfold update_balance. destruct dst as [| q | q]; try reflexivity.
      simpl in Habs. rewrite Habs. reflexivity. }
    destruct (present (source_account_id data)); simpl; rewrite Hupd;
      reflexivity. }
  pose proof (submit_admitted data tid d Hadm) as H. cbn zeta in H. fold r in H.
  rewrite Hrun in H.
  assert (Hacc : ledger_accepts d (newRow data tid completed None) = false).
  { unfold ledger_accepts. simpl. rewrite Hdst. simpl. rewrite Habs.
    rewrite bool_decide_eq_false_2 by (intros [? ?]; discriminate).
    apply andb_false_r. }
  rewrite Hacc in H. destruct H as [Hr Hd]. auto.
Qed.

Lemma deposit_to_missing_account_throws_witness :
  raises_store_error (submit (mkData deposit 100 None (Some 9)) "tx-1" seed).1
  /\ committed (submit (mkData deposit 100 None (Some 9)) "tx-1" seed).2 = seed.
Proof.
  exact (proj2 (proj2
    (deposit_to_missing_account_throws
       (mkData deposit 100 None (Some 9)) "tx-1" seed 9
       eq_refl ltac:(simpl; lra) eq_refl eq_refl))).
Defined.

(** ** What the column range and the check constraint see *)

Lemma seed_in_range : in_range seed.
Proof.
  unfold in_range, seed. simpl.
  apply map_Forall_insert_2; [reflexivity |].
  apply map_Forall_singleton. reflexivity.
Defined.

(** X11. Every balance stays within what a DECIMAL(15,2) column can hold:
    if all stored balances are in range, they are in range after any
    sequence of submissions, whatever the submissions are and however each
    one ends. *)
Theorem balances_stay_in_column_range
    (ops : list (CreateTransactionData * string)) (d : DB) :
  in_range d -> in_range (submitAll ops d).
Proof.
  apply (submitAll_checked (fun b => decimal_15_2 b = true)). auto.
Qed.

Lemma balances_stay_in_column_range_witness :
  in_range seed /\ in_range (submitAll sample_ops seed).
Proof.
  split; [exact seed_in_range |].
  apply balances_stay_in_column_range. exact seed_in_range.
Defined.

(** X12. Run one after another from non-negative balances, no submission
    ever ends with the check constraint's error: the balance test of the
    service keeps every debit within the funds, so the constraint
    chk_balance_non_negative is never the one that stops a submission. *)
Theorem check_constraint_never_fires
    (ops : list (CreateTransactionData * string))
    (data : CreateTransactionData) (tid : string) (d : DB) :
  non_negative d ->
  (submit data tid (submitAll ops d)).1
  <> Throw (MysqlError ER_CHECK_CONSTRAINT_VIOLATED).
Proof.
  intros Hd. apply check_constraint_is_never_reached.
  apply (submitAll_checked (fun b => 0 <= b)); auto.
Qed.

Lemma check_constraint_never_fires_witness :
  (submit (mkData withdrawal 999999 (Some 1) None) "tx-9"
     (submitAll sample_ops seed)).1
  <> Throw (MysqlError ER_CHECK_CONSTRAINT_VIOLATED).
Proof.
  apply check_constraint_never_fires. exact seed_non_negative.
Defined.

(** ** A reference the type needs and the request lacks *)

Lemma run_missing_reference data why c :
  (0 < amount data)%Q ->
  match type data with
  | deposit =>
      present (destination_account_id data) = None
      /\ why = "Destination account required for deposit"
  | withdrawal =>
      present (source_account_id data) = None
      /\ why = "Source account required for withdrawal"
  | transfer =>
      (present (source_account_id data) = None
       \/ present (destination_account_id data) = None)
      /\ why = "Both source and destination accounts required for transfer"
  end ->
  run (validateAndProcess data) c = (Ok (failed, Some why), c).
Proof.
  intros Hpos H. apply Qle_bool_false in Hpos.
  unfold validateAndProcess. rewrite Hpos.
  destruct (type data).
  - destruct H as [-> ->]. reflexivity.
  - destruct H as [-> ->]. reflexivity.
  - destruct H as [[-> | Hd] ->]; [reflexivity |].
    rewrite Hd. destruct (present (source_account_id data)); reflexivity.
Qed.

(** X13. A positive amount whose type lacks a reference it needs (the
    field is absent or 0: the destination for a deposit, the source for a
    withdrawal, either of the two for a transfer) is refused with the
    reason of its type before any account is read: the statements sent are
    the begin, the insert of the failed row and then either the commit and
    the fetch, or the rollback when the ledger rejects the row.  No balance
    changes. *)
Theorem missing_reference_is_refused_unread
    (data : CreateTransactionData) (tid : string) (d : DB) (why : string) :
  (0 < amount data)%Q ->
  match type data with
  | deposit =>
      present (destination_account_id data) = None
      /\ why = "Destination account required for deposit"
  | withdrawal =>
      present (source_account_id data) = None
      /\ why = "Source account required for withdrawal"
  | transfer =>
      (present (source_account_id data) = None
       \/ present (destination_account_id data) = None)
      /\ why = "Both source and destination accounts required for transfer"
  end ->
  let row := newRow data tid failed (Some why) in
  let r := submit data tid d in
  accounts (committed r.2) = accounts d /\
  if ledger_accepts d row then
    returns_failed r.1 why
    /\ transactions (committed r.2) = transactions d ++ [row]
    /\ log r.2 = [stmt BeginTransaction; stmt (InsertTransaction row);
                  stmt Commit; stmt (SelectTransaction tid)]
  else
    raises_store_error r.1
    /\ committed r.2 = d
    /\ log r.2 = [stmt BeginTransaction; stmt (InsertTransaction row);
                  stmt Rollback].
Proof.
  intros Hpos Hmiss row r. subst r.
  rewrite submit_eq, (run_missing_reference _ why _ Hpos Hmiss).
  cbn zeta. simpl fst; simpl snd.
  fold row. change (working (opened d)) with d.
  destruct (ledger_accepts d row) eqn:Hacc.
  - rewrite (insert_accepted _ _ Hacc). simpl. repeat split.
    exists (mapRowToTransaction row). auto.
  - destruct (insert_rejected _ _ Hacc) as (q & -> & _). simpl. repeat split.
    exists q. reflexivity.
Qed.

Lemma missing_reference_is_refused_unread_witness :
  returns_failed
    (submit (mkData transfer 100 (Some 1) (Some 0)) "tx-1" seed).1
    "Both source and destination accounts required for transfer".
Proof.
  exact (proj1 (proj2
    (missing_reference_is_refused_unread
       (mkData transfer 100 (Some 1) (Some 0)) "tx-1" seed _
       ltac:(simpl; lra) (conj (or_intror eq_refl) eq_refl)))).
Defined.

(** ** Authentication *)

Lemma findBySecretKey_some key d u :
  UserService.findBySecretKey key d = Some u ->
  users d !! auth_id u = Some (auth_user u)
  /\ weight_string d (secret_key (auth_user u)) = weight_string d key.
Proof.
  unfold UserService.findBySecretKey.
  destruct (head _) as [[p x] |] eqn:Hh; [| discriminate].
  intros [= <-]. simpl.
  apply head_Some_elem_of, list_elem_of_filter in Hh as [Hk Hin].
  apply elem_of_map_to_list in Hin. auto.
Qed.

Lemma findBySecretKey_none key d :
  UserService.findBySecretKey key d = None ->
  forall p x, users d !! p = Some x ->
              weight_string d (secret_key x) <> weight_string d key.
Proof.
  unfold UserService.findBySecretKey.
  destruct (head _) as [px |] eqn:Hh; [discriminate |]. intros _ p x Hp Hk.
  apply head_None in Hh.
  assert (Hin : (p, x) ∈ filter
                  (fun u : positive * User =>
                     weight_string d (secret_key u.2) = weight_string d key)
                  (map_to_list (users d))).
  { apply list_elem_of_filter. split; [exact Hk |].
    apply elem_of_map_to_list. exact Hp. }
  rewrite Hh in Hin. apply elem_of_nil in Hin. exact Hin.
Qed.

Lemma authenticateUser_inl key d res :
  Middleware.authenticateUser key d = inl res -> res_status res = 401.
Proof.
  unfold Middleware.authenticateUser.
  destruct key as [[| c k] |]; try (intros [= <-]; reflexivity).
  destruct (UserService.findBySecretKey _ d); [discriminate |].
  intros [= <-]. reflexivity.
Qed.

(** X14. Authentication lets a request through exactly as a stored user:
    when it succeeds, the header was present and not empty and the user
    put on the request is a row of the users table whose secret key
    compares equal to the header's value under the collation of the
    table (so a header that differs from the key in case only gets
    through where the collation ignores case); when it answers instead,
    the status is 401 and no user has a key that compares equal to the
    (non-empty) key that was sent. *)
Theorem authentication_is_by_stored_key (key : option string) (d : DB) :
  match Middleware.authenticateUser key d with
  | inr u =>
      exists k, key = Some k /\ k <> ""
                /\ users d !! auth_id u = Some (auth_user u)
                /\ weight_string d (secret_key (auth_user u))
                   = weight_string d k
  | inl res =>
      res_status res = 401
      /\ forall k, key = Some k -> k <> "" ->
           forall p x, users d !! p = Some x ->
                       weight_string d (secret_key x) <> weight_string d k
  end.
Proof.
  destruct (Middleware.authenticateUser key d) as [res | u] eqn:Hauth.
  - split; [exact (authenticateUser_inl _ _ _ Hauth) |].
    intros k -> Hk. unfold Middleware.authenticateUser in Hauth.
    destruct k as [| c k]; [congruence |].
    destruct (UserService.findBySecretKey _ d) eqn:Hf; [discriminate |].
    exact (findBySecretKey_none _ _ Hf).
  - unfold Middleware.authenticateUser in Hauth.
    destruct key as [[| c k] |]; try discriminate.
    destruct (UserService.findBySecretKey _ d) as [u' |] eqn:Hf;
      [| discriminate].
    injection Hauth as ->. exists (String c k).
    destruct (findBySecretKey_some _ _ _ Hf). split_and!; auto.
Qed.

(** Under the collation of the samples, Alice's key in capitals is
    Alice's key. *)
Lemma key_in_capitals_authenticates :
  Middleware.authenticateUser (Some "KEY-ALICE") seed
  = inr (mkAuthUser 1 alice).
Proof. vm_compute. reflexivity. Qed.

(** ** [POST /api/transactions] from the header to the answer *)

Lemma submit_throws_store_error data tid d e :
  (submit data tid d).1 = Throw e ->
  (exists q, e = MysqlError q) /\ committed (submit data tid d).2 = d.
Proof.
  intros Hthrow. destruct (refusal d data) as [why |] eqn:Href.
  - destruct (submit_refused data tid d why Href) as [_ H].
    destruct (ledger_accepts d _).
    + destruct H as [H _]. congruence.
    + destruct H as [[q Hq] Hd]. split; [exists q; congruence | exact Hd].
  - pose proof (submit_admitted data tid d Href) as H. cbn zeta in H.
    destruct (apply_updates d (movement data)) as [[u | e'] w] eqn:Hrun.
    + destruct (ledger_accepts w _).
      * destruct H as [H _]. congruence.
      * destruct H as [[q Hq] Hd]. split; [exists q; congruence | exact Hd].
    + destruct H as [H Hd]. split; [| exact Hd].
      destruct (apply_updates_throw _ _ _ _ Hrun) as [q ->].
      exists q. congruence.
Qed.

Lemma checkAccount_ok notFound unauthorized req id d u :
  TransactionController.checkAccount notFound unauthorized req id d = Ok u ->
  owns (user req) d id.
Proof.
  unfold TransactionController.checkAccount, owns.
  destruct (AccountService.findById id d) as [a |]; [| discriminate].
  destruct (user req) as [v |]; [| discriminate].
  destruct (bool_decide (user_id a = auth_id v)) eqn:Hown; [| discriminate].
  apply bool_decide_eq_true in Hown. eauto.
Qed.

Lemma checkAccount_throw notFound unauthorized req id d e :
  TransactionController.checkAccount notFound unauthorized req id d = Throw e ->
  e = newAppError notFound 404 \/ e = newAppError unauthorized 403.
Proof.
  unfold TransactionController.checkAccount.
  destruct (AccountService.findById id d) as [a |]; [| intros [= <-]; auto].
  destruct (user req) as [v |]; [| intros [= <-]; auto].
  destruct (bool_decide _); [discriminate | intros [= <-]; auto].
Qed.

Lemma submitBody_cases req tid d :
  let r := TransactionController.submitBody req tid d in
  match r.1 with
  | Ok res =>
      (forall src, present (source_account_id (body req)) = Some src ->
                   owns (user req) d src)
      /\ (forall dst, type (body req) = deposit ->
                      present (destination_account_id (body req)) = Some dst ->
                      owns (user req) d dst)
      /\ exists t,
           (submit (body req) tid d).1 = Ok t
           /\ res = {| res_status := 201; res_body := Created t |}
           /\ r.2 = committed (submit (body req) tid d).2
  | Throw e =>
      r.2 = d
      /\ ((exists q, e = MysqlError q)
          \/ e = newAppError "Source account not found" 404
          \/ e = newAppError "Unauthorized access to source account" 403
          \/ e = newAppError "Destination account not found" 404
          \/ e = newAppError "Unauthorized access to destination account" 403)
  end.
Proof.
  unfold TransactionController.submitBody.
  set (source_ok := match present (source_account_id (body req)) with
                    | Some src => _ | None => Ok tt end).
  destruct source_ok as [u | e] eqn:Hsrc; subst source_ok.
  2:{ simpl. split; [reflexivity |].
      destruct (present (source_account_id (body req))); [| discriminate].
      destruct (checkAccount_throw _ _ _ _ _ _ Hsrc) as [-> | ->]; auto. }
  set (destination_ok :=
         match present (destination_account_id (body req)), type (body req) with
         | Some dst, deposit => _ | _, _ => Ok tt end).
  destruct destination_ok as [u' | e] eqn:Hdst; subst destination_ok.
  2:{ simpl. split; [reflexivity |].
      destruct (present (destination_account_id (body req)));
        [| discriminate].
      destruct (type (body req)); try discriminate.
      destruct (checkAccount_throw _ _ _ _ _ _ Hdst) as [-> | ->]; auto 6. }
  cbn zeta.
  destruct (submit (body req) tid d).1 as [t | e] eqn:Hsub; simpl.
  - split_and!.
    + intros src Hs. rewrite Hs in Hsrc. exact (checkAccount_ok _ _ _ _ _ _ Hsrc).
    + intros dst Hty Hd. rewrite Hd, Hty in Hdst.
      exact (checkAccount_ok _ _ _ _ _ _ Hdst).
    + exists t. auto.
  - destruct (submit_throws_store_error _ _ _ _ Hsub) as [Hq Hd]. auto.
Qed.

Lemma errorHandler_sql q :
  res_status (Middleware.errorHandler (newAppError (sqlMessage q) 400)) = 400.
Proof. destruct q; reflexivity. Qed.

(** X15. Whatever the header, the body and the database, the answer to
    [POST /api/transactions] has status 201, 400, 401 or 404 (never 403,
    409 or 500).  Any answer other than 201 leaves the database exactly as
    it was; an answer 201 carries the transaction with the identifier that
    was drawn, and the ledger has gained that one row. *)
Theorem post_transaction_answers
    (key : option string) (b : CreateTransactionData) (tid : string) (d : DB) :
  let r := Route.postTransaction key b tid d in
  (res_status r.1 = 201 \/ res_status r.1 = 400
   \/ res_status r.1 = 401 \/ res_status r.1 = 404)
  /\ (res_status r.1 <> 201 -> r.2 = d)
  /\ (res_status r.1 = 201 ->
      exists t row,
        res_body r.1 = Created t /\ transaction_id t = tid
        /\ mapRowToTransaction row = t
        /\ transactions r.2 = transactions d ++ [row]).
Proof.
  unfold Route.postTransaction.
  destruct (Middleware.authenticateUser key d) as [res | u] eqn:Hauth.
  { apply authenticateUser_inl in Hauth. simpl. rewrite Hauth.
    split_and!; auto; discriminate. }
  unfold Middleware.validate.
  destruct (Middleware.schemas_transaction b).
  2:{ simpl. split_and!; auto; discriminate. }
  unfold TransactionController.submitTransaction.
  pose proof (submitBody_cases {| user := Some u; body := b |} tid d) as H.
  cbn zeta in H.
  destruct (TransactionController.submitBody _ tid d) as [[res | e] d'].
  - simpl in H. destruct H as (_ & _ & t & Hsub & -> & ->). simpl.
    split_and!; auto; [congruence |]. intros _.
    destruct (submit_cases b tid d) as [(e & He & _) | (row & w & Hr & Hd & _ & Hw)];
      [congruence |].
    exists t, row. rewrite Hd. rewrite Hsub in Hr. injection Hr as ->.
    split_and!; auto.
    + destruct Hw as [(why & _ & -> & _) | (_ & -> & _)]; reflexivity.
    + simpl. f_equal.
      destruct Hw as [(why & _ & _ & ->) | (_ & _ & Hrun)]; [reflexivity |].
      apply apply_updates_frame in Hrun. tauto.
  - simpl in H. destruct H as [-> H]. simpl.
    assert (Hst : res_status
                    (Middleware.errorHandler (newAppError (message_of e) 400))
                  = 400
                  \/ res_status
                       (Middleware.errorHandler (newAppError (message_of e) 400))
                     = 404).
    { destruct H as [[q ->] | [-> | [-> | [-> | ->]]]]; simpl message_of;
        [left; apply errorHandler_sql | right | left | right | left];
        reflexivity. }
    split_and!; [tauto | reflexivity |].
    intros H201. destruct Hst as [Hst | Hst]; rewrite Hst in H201;
      discriminate.
Qed.

(** X16. [POST /api/transactions] changes a balance only where the caller
    may: if an account's balance differs after the request, either the
    account belongs to the authenticated caller, or the request was a
    transfer naming it as destination and its balance went up.  So no
    request lowers the balance of somebody else's account, and a deposit
    reaches only the caller's own accounts. *)
Theorem balances_change_only_as_authorised
    (key : option string) (b : CreateTransactionData) (tid : string) (d : DB)
    (id bal bal' : Z) :
  let r := Route.postTransaction key b tid d in
  balance_of d id = Some bal ->
  balance_of r.2 id = Some bal' ->
  bal' <> bal ->
  (exists u, Middleware.authenticateUser key d = inr u /\ owns (Some u) d id)
  \/ (type b = transfer
      /\ present (destination_account_id b) = Some id
      /\ bal < bal').
Proof.
  unfold Route.postTransaction.
  destruct (Middleware.authenticateUser key d) as [res | u] eqn:Hauth;
    [simpl; congruence |].
  unfold Middleware.validate.
  destruct (Middleware.schemas_transaction b); [| simpl; congruence].
  unfold TransactionController.submitTransaction.
  pose proof (submitBody_cases {| user := Some u; body := b |} tid d) as H.
  cbn zeta in H.
  destruct (TransactionController.submitBody _ tid d) as [[res | e] d'];
    simpl in H; [| destruct H as [-> _]; simpl; congruence].
  destruct H as (Hown_src & Hown_dst & t & Hsub & _ & ->).
  cbn zeta. simpl fst; simpl snd. intros Hbal Hbal' Hne.
  destruct (submit_cases b tid d)
    as [(e & He & _) | (row & w & _ & Hd & _ & Hw)]; [congruence |].
  rewrite Hd in Hbal'.
  change (balance_of (with_transactions w (transactions w ++ [row])) id)
    with (balance_of w id) in Hbal'.
  destruct Hw as [(why & _ & _ & ->) | (Href & _ & Hrun)]; [congruence |].
  apply apply_updates_frame in Hrun. destruct Hrun as (_ & _ & _ & _ & Hnet).
  rewrite Hnet, Hbal in Hbal'. injection Hbal' as Hbal'.
  assert (Hpos : (0 < amount b)%Q).
  { unfold refusal in Href.
    destruct (Qle_bool (amount b) 0) eqn:E; [discriminate |].
    apply Qle_bool_false in E. exact E. }
  assert (Hup : bal <= balance_plus bal (amount b)).
  { rewrite <- (balance_plus_0 bal) at 1. apply balance_plus_mono. lra. }
  unfold movement, settled in Hbal'.
  destruct (present (source_account_id b)) as [src |] eqn:Hs;
    destruct (present (destination_account_id b)) as [dst |] eqn:Hd';
    destruct (type b) eqn:Hty; simpl in Hbal';
    repeat case_decide; subst; try congruence;
    try (left; exists u; split; [reflexivity |];
         first [exact (Hown_src _ eq_refl)
               | exact (Hown_dst _ eq_refl eq_refl)]).
  right. split_and!; auto. lia.
Qed.

Lemma balances_change_only_as_authorised_witness :
  (exists u, Middleware.authenticateUser (Some "key-alice") seed = inr u
             /\ owns (Some u) seed 1)
  \/ (withdrawal = transfer
      /\ present (@None Z) = Some 1
      /\ 100000 < 20000).
Proof.
  apply (balances_change_only_as_authorised (Some "key-alice")
           (mkData withdrawal 80000 (Some 1) None) "tx-1" seed 1 100000 20000).
  - reflexivity.
  - reflexivity.
  - lia.
Defined.

(** ** What validation of the body buys the service *)

Lemma field_ok_present required v :
  Middleware.field_ok required v = true ->
  if required then exists id, v = Some id /\ 0 < id /\ present v = Some id
  else v = None.
Proof.
  unfold Middleware.field_ok. destruct v as [id |]; destruct required; simpl;
    try discriminate; auto.
  intros H. apply Z.ltb_lt in H. exists id. split_and!; auto.
  destruct (id =? 0) eqn:H0; [apply Z.eqb_eq in H0; lia | reflexivity].
Qed.

(** X17. A body that passed [schemas.transaction] carries the references
    of its type and no others, each a positive integer; so the service,
    when it records such a request as failed, does so for the amount or
    for the funds, never for a missing reference. *)
Theorem validated_request_has_its_references
    (b : CreateTransactionData) (tid : string) (d : DB) :
  Middleware.schemas_transaction b = true ->
  match type b with
  | deposit =>
      source_account_id b = None
      /\ exists dst, destination_account_id b = Some dst /\ 0 < dst
  | withdrawal =>
      destination_account_id b = None
      /\ exists src, source_account_id b = Some src /\ 0 < src
  | transfer =>
      (exists src, source_account_id b = Some src /\ 0 < src)
      /\ exists dst, destination_account_id b = Some dst /\ 0 < dst
  end
  /\ forall t why,
       (submit b tid d).1 = Ok t -> failure_reason t = Some why ->
       why = "Negative or zero amount not allowed" \/ why = "Insufficient funds".
Proof.
  unfold Middleware.schemas_transaction. intros H.
  apply andb_true_iff in H as [Hs Hd].
  apply field_ok_present in Hs. apply field_ok_present in Hd.
  assert (Href : forall why, refusal d b = Some why ->
            why = "Negative or zero amount not allowed"
            \/ why = "Insufficient funds").
  { intros why. unfold refusal.
    destruct (Qle_bool (amount b) 0); [intros [= <-]; auto |].
    destruct (type b); simpl in Hs, Hd.
    - destruct Hd as (dst & _ & _ & ->). discriminate.
    - destruct Hs as (src & _ & _ & ->).
      destruct (covered d src (amount b)); [discriminate | intros [= <-]; auto].
    - destruct Hs as (src & _ & _ & ->). destruct Hd as (dst & _ & _ & ->).
      destruct (covered d src (amount b)); [discriminate | intros [= <-]; auto]. }
  split.
  - destruct (type b); simpl in Hs, Hd.
    + destruct Hd as (dst & ? & ? & _). split; [exact Hs | exists dst; auto].
    + destruct Hs as (src & ? & ? & _). split; [exact Hd | exists src; auto].
    + destruct Hs as (src & ? & ? & _). destruct Hd as (dst & ? & ? & _).
      split; [exists src | exists dst]; auto.
  - intros t why Hsub Hwhy.
    destruct (submit_cases b tid d)
      as [(e & He & _) | (row & w & Hr & _ & _ & Hw)]; [congruence |].
    rewrite Hsub in Hr. injection Hr as ->.
    destruct Hw as [(why' & Hrefused & -> & _) | (_ & -> & _)];
      [| discriminate].
    simpl in Hwhy. injection Hwhy as ->. exact (Href _ Hrefused).
Qed.

Lemma validated_request_has_its_references_witness :
  destination_account_id (mkData withdrawal 800000 (Some 1) None) = None
  /\ exists src,
       source_account_id (mkData withdrawal 800000 (Some 1) None) = Some src
       /\ 0 < src.
Proof.
  exact (proj1 (validated_request_has_its_references
                  (mkData withdrawal 800000 (Some 1) None) "tx-1" seed
                  eq_refl)).
Defined.

(** ** [GET /api/accounts/:accountId/balance] *)

Lemma account_balance_cases caller accountId d :
  match AccountController.getAccountBalance caller accountId d with
  | Ok data =>
      exists id a,
        accountId = Some id /\ AccountService.findById id d = Some a
        /\ owns caller d id
        /\ data = {| data_account_id := id; data_balance := balance a |}
  | Throw e =>
      (e = newAppError "Invalid account ID" 400 /\ accountId = None)
      \/ (e = newAppError "Account not found" 404
          /\ exists id, accountId = Some id
                        /\ AccountService.findById id d = None)
      \/ (e = newAppError "Unauthorized access to account" 400
          /\ exists id, accountId = Some id
                        /\ is_Some (AccountService.findById id d)
                        /\ ~ owns caller d id)
  end.
Proof.
  unfold AccountController.getAccountBalance,
    AccountController.getAccountBalanceBody.
  destruct accountId as [id |]; [| simpl; auto].
  destruct (AccountService.findById id d) as [a |] eqn:Hfind;
    [| simpl; eauto 8].
  assert (Hbal : getAccountBalance id d = Ok (balance a)).
  { unfold getAccountBalance, select_balance.
    unfold AccountService.findById in Hfind. rewrite Hfind. reflexivity. }
  destruct caller as [u |].
  - destruct (bool_decide (user_id a = auth_id u)) eqn:Hown.
    + apply bool_decide_eq_true in Hown. rewrite Hbal.
      exists id, a. split_and!; auto. exists a, u. auto.
    + apply bool_decide_eq_false in Hown. simpl. right; right.
      split; [reflexivity |]. exists id. split_and!; eauto.
      intros (a' & u' & Ha' & [= <-] & Hu'). congruence.
  - simpl. right; right. split; [reflexivity |]. exists id.
    split_and!; eauto. intros (a' & u' & _ & Hu' & _). discriminate.
Qed.

(** X18. [GET /api/accounts/:accountId/balance] discloses a balance to
    the owner of the account only: an answer 200 means that the caller
    authenticated as a stored user, that the account read by the
    controller exists and is that user's, and that the balance sent is the
    stored one.  Every other answer has status 400, 401 or 404. *)
Theorem balance_is_disclosed_to_the_owner_only
    (key : option string) (param : Route.AccountIdParam) (d : DB) :
  match Route.getBalance key param d with
  | inr data =>
      exists u a,
        Middleware.authenticateUser key d = inr u
        /\ Route.as_parseInt param = Some (data_account_id data)
        /\ AccountService.findById (data_account_id data) d = Some a
        /\ user_id a = auth_id u
        /\ data_balance data = balance a
  | inl res =>
      res_status res = 400 \/ res_status res = 401 \/ res_status res = 404
  end.
Proof.
  unfold Route.getBalance.
  destruct (Middleware.authenticateUser key d) as [res | u] eqn:Hauth.
  { apply authenticateUser_inl in Hauth. auto. }
  destruct (Route.schemas_accountId (Route.as_number param)); [| simpl; auto].
  pose proof (account_balance_cases (Some u) (Route.as_parseInt param) d) as H.
  destruct (AccountController.getAccountBalance _ _ d) as [data | e].
  - destruct H as (id & a & Hid & Hfind & (a' & u' & Ha' & [= <-] & Hown) & ->).
    exists u, a. simpl. rewrite Hfind in Ha'. injection Ha' as <-.
    split_and!; auto.
  - destruct H as [[-> _] | [[-> _] | [-> _]]]; simpl; auto.
Qed.

(** X19. For an authenticated caller and a parameter that passes the
    schema, the balance route answers 404 with code ACCOUNT_NOT_FOUND when
    the account does not exist, 200 with the stored balance when the
    account is the caller's, and otherwise 400 with code INTERNAL_ERROR:
    the 403 that the controller raises for somebody else's account is
    rewrapped by its own catch clause before the error handler sees it. *)
Theorem balance_route_for_authenticated_caller
    (key : option string) (param : Route.AccountIdParam) (d : DB)
    (u : AuthUser) (id : Z) :
  Middleware.authenticateUser key d = inr u ->
  Route.schemas_accountId (Route.as_number param) = true ->
  Route.as_parseInt param = Some id ->
  Route.getBalance key param d =
  match AccountService.findById id d with
  | None =>
      inl {| res_status := 404;
             res_body := ErrorJson "ACCOUNT_NOT_FOUND" "Account not found" |}
  | Some a =>
      if bool_decide (user_id a = auth_id u) then
        inr {| data_account_id := id; data_balance := balance a |}
      else
        inl {| res_status := 400;
               res_body := ErrorJson "INTERNAL_ERROR"
                             "Unauthorized access to account" |}
  end.
Proof.
  intros Hauth Hschema Hid. unfold Route.getBalance.
  rewrite Hauth, Hschema, Hid.
  unfold AccountController.getAccountBalance,
    AccountController.getAccountBalanceBody.
  destruct (AccountService.findById id d) as [a |] eqn:Hfind; [| reflexivity].
  destruct (bool_decide (user_id a = auth_id u)); [| reflexivity].
  unfold getAccountBalance, select_balance.
  unfold AccountService.findById in Hfind. rewrite Hfind. reflexivity.
Qed.

Lemma balance_route_for_authenticated_caller_witness :
  Route.getBalance (Some "key-bob") (Route.mkParam (Some 1) (Some 1)) seed
  = inl {| res_status := 400;
           res_body := ErrorJson "INTERNAL_ERROR"
                         "Unauthorized access to account" |}.
Proof.
  exact (balance_route_for_authenticated_caller
           (Some "key-bob") (Route.mkParam (Some 1) (Some 1)) seed
           (mkAuthUser 2 bob) 1 eq_refl eq_refl eq_refl).
Defined.

(** X20. [TransactionController.getAccountBalance] never looks at the
    caller: it answers with the stored balance for every account that
    exists, with 404 for one that does not and with 400 for a parameter
    that is no number.  Whatever [AccountController.getAccountBalance]
    discloses to some caller, this handler discloses as well. *)
Theorem transaction_controller_balance_ignores_owner
    (accountId : option Z) (d : DB) :
  TransactionController.getAccountBalance accountId d =
  match accountId with
  | None => Throw (newAppError "Invalid account ID" 400)
  | Some id =>
      match AccountService.findById id d with
      | None => Throw (newAppError "Account not found" 404)
      | Some a => Ok {| data_account_id := id; data_balance := balance a |}
      end
  end
  /\ forall caller data,
       AccountController.getAccountBalance caller accountId d = Ok data ->
       TransactionController.getAccountBalance accountId d = Ok data.
Proof.
  assert (Heq : TransactionController.getAccountBalance accountId d =
                match accountId with
                | None => Throw (newAppError "Invalid account ID" 400)
                | Some id =>
                    match AccountService.findById id d with
                    | None => Throw (newAppError "Account not found" 404)
                    | Some a =>
                        Ok {| data_account_id := id;
                              data_balance := balance a |}
                    end
                end).
  { unfold TransactionController.getAccountBalance.
    destruct accountId as [id |]; [| reflexivity].
    unfold getAccountBalance, select_balance, AccountService.findById.
    destruct (account_by_id (accounts d) id); reflexivity. }
  split; [exact Heq |]. intros caller data Hacc.
  pose proof (account_balance_cases caller accountId d) as H.
  rewrite Hacc in H. destruct H as (id & a & -> & Hfind & _ & ->).
  rewrite Heq, Hfind. reflexivity.
Qed.

(** ** The summary report *)

Section ReportRows.
Import Sql Report.

Lemma joined_key d (r : JoinedRow) :
  r ∈ joined d ->
  exists a,
    accounts d !! r.1.1.1 = Some a
    /\ group_key r
       = (r.1.1.1, account_number a, username <$> users d !! user_id a,
          balance a).
Proof.
  destruct r as [[[p a] ou] ot]. unfold joined. intros H.
  apply elem_of_left_join in H as [H _].
  apply elem_of_left_join in H as [Ha Hou].
  apply elem_of_map_to_list in Ha. exists a. split; [exact Ha |].
  unfold group_key. simpl. f_equal. f_equal.
  destruct ou as [[q x] |]; simpl in *.
  - destruct Hou as [Hu Hq]. apply elem_of_map_to_list in Hu.
    apply bool_decide_eq_true in Hq. rewrite Hq, Hu. reflexivity.
  - destruct (users d !! user_id a) as [x |] eqn:Hu; [| reflexivity].
    apply elem_of_map_to_list in Hu. apply Hou in Hu. simpl in Hu.
    apply bool_decide_eq_false in Hu. congruence.
Qed.

Lemma account_in_joined d p a :
  accounts d !! p = Some a -> exists ou ot, ((p, a), ou, ot) ∈ joined d.
Proof.
  intros Ha. apply elem_of_map_to_list in Ha.
  destruct (left_join_total (fun a u => bool_decide (user_id a.2 = u.1))
              _ (map_to_list (users d)) _ Ha) as [ou Hou].
  destruct (left_join_total (fun au t => on_transaction au.1.1 t)
              _ (transactions d) _ Hou) as [ot Hot].
  eauto.
Qed.

Lemma accountRows_keys d :
  account_id <$> accountRows d
  = (fun k : positive * string * option string * Z => k.1.1.1)
    <$> remove_dups (group_key <$> joined d).
Proof.
  unfold accountRows, group_by.
  rewrite <- !list_fmap_compose. apply list_fmap_ext. reflexivity.
Qed.

(** X21. The account part of the report has exactly one row per account:
    each row shows an account of the table with its number and balance
    and the name of its user (none when the user row is missing), every
    account has a row, and no account has two. *)
Theorem report_has_one_row_per_account (d : DB) :
  (forall s, s ∈ report_accounts (getSummaryReport d) ->
     exists a,
       accounts d !! account_id s = Some a
       /\ summary_account_number s = account_number a
       /\ current_balance s = balance a
       /\ summary_username s = username <$> users d !! user_id a)
  /\ (forall p a, accounts d !! p = Some a ->
        exists s, s ∈ report_accounts (getSummaryReport d) /\ account_id s = p)
  /\ NoDup (account_id <$> report_accounts (getSummaryReport d)).
Proof.
  unfold getSummaryReport. simpl. split_and!.
  - intros s Hs. unfold accountRows in Hs.
    apply list_elem_of_fmap in Hs as ([k rows] & -> & Hg).
    apply elem_of_group_by in Hg as [(r & Hr & Hk) _].
    destruct (joined_key d r Hr) as (a & Ha & Hkey).
    rewrite Hkey in Hk. subst k. exists a. simpl. auto.
  - intros p a Ha. destruct (account_in_joined d p a Ha) as (ou & ot & Hr).
    exists (summarise (group_key ((p, a), ou, ot),
                       filter (fun r => group_key r = group_key ((p, a), ou, ot))
                         (joined d))).
    split; [| reflexivity].
    unfold accountRows. apply list_elem_of_fmap. eexists. split; [reflexivity |].
    apply elem_of_group_by. split; [| reflexivity]. exists ((p, a), ou, ot). auto.
  - rewrite accountRows_keys. apply NoDup_fmap_2_strong;
      [| apply NoDup_remove_dups].
    intros k1 k2 H1 H2 Hid.
    apply (proj1 (elem_of_remove_dups _ _)) in H1.
    apply (proj1 (elem_of_remove_dups _ _)) in H2.
    apply list_elem_of_fmap in H1 as (r1 & -> & Hr1).
    apply list_elem_of_fmap in H2 as (r2 & -> & Hr2).
    destruct (joined_key d r1 Hr1) as (a1 & Ha1 & Hk1).
    destruct (joined_key d r2 Hr2) as (a2 & Ha2 & Hk2).
    rewrite Hk1, Hk2 in *. simpl in Hid. rewrite Hid in Ha1.
    rewrite Ha1 in Ha2. injection Ha2 as ->. rewrite Hid. reflexivity.
Qed.

Lemma count_by_reason (k : string) (l : list TransactionRow) :
  length (filter (fun r : string => r = k) (omap row_failure_reason l))
  = length (filter (fun t => row_failure_reason t = Some k) l).
Proof.
  induction l as [| t l IH]; [reflexivity |].
  rewrite (filter_cons (fun t => row_failure_reason t = Some k)).
  change (omap row_failure_reason (t :: l)) with
    (match row_failure_reason t with
     | Some w => w :: omap row_failure_reason l
     | None => omap row_failure_reason l
     end).
  destruct (row_failure_reason t) as [w |] eqn:Hw.
  - rewrite filter_cons. destruct (decide (w = k)) as [-> | Hne].
    + rewrite decide_True by reflexivity. simpl. rewrite IH. reflexivity.
    + rewrite decide_False by congruence. exact IH.
  - rewrite decide_False by discriminate. exact IH.
Qed.

(** X22. The failure part of the report is a histogram of the reasons:
    no reason is listed twice, the count beside a reason is the number of
    failed rows of the ledger that carry it, which is at least one, and
    every reason carried by a failed row is listed. *)
Theorem report_counts_failures_by_reason (d : DB) :
  NoDup (reason <$> failed_transactions (getSummaryReport d))
  /\ (forall f, f ∈ failed_transactions (getSummaryReport d) ->
        count f
        = length (filter (fun t => row_failure_reason t = Some (reason f)
                                   /\ row_status t = failed)
                    (transactions d))
        /\ (0 < count f)%nat)
  /\ (forall t why, t ∈ transactions d -> row_status t = failed ->
        row_failure_reason t = Some why ->
        exists f, f ∈ failed_transactions (getSummaryReport d)
                  /\ reason f = why).
Proof.
  unfold getSummaryReport, failedRows, group_by. simpl.
  set (rows := omap row_failure_reason
                 (filter (fun t => row_status t = failed) (transactions d))).
  split_and!.
  - rewrite <- !list_fmap_compose.
    rewrite (list_fmap_ext _ id) by reflexivity.
    rewrite !list_fmap_id. apply NoDup_remove_dups.
  - intros f Hf.
    apply list_elem_of_fmap in Hf as ([k g] & -> & Hg).
    apply list_elem_of_fmap in Hg as (k' & [= <- ->] & Hk).
    simpl. subst rows. rewrite count_by_reason, list_filter_filter.
    split; [reflexivity |].
    apply (proj1 (elem_of_remove_dups _ _)) in Hk.
    rewrite list_fmap_id in Hk.
    apply list_elem_of_omap in Hk as (t & Ht & Hwhy).
    apply list_elem_of_filter in Ht as [Hst Ht].
    assert (Hin : t ∈ filter (fun t => row_failure_reason t = Some k
                                       /\ row_status t = failed)
                    (transactions d)).
    { apply list_elem_of_filter. auto. }
    destruct (filter _ (transactions d)); [| simpl; lia].
    apply elem_of_nil in Hin. contradiction.
  - intros t why Ht Hst Hwhy.
    exists {| reason := why;
              count := length (filter (fun r : string => r = why) rows) |}.
    split; [| reflexivity].
    apply list_elem_of_fmap. exists (why, filter (fun r : string => r = why) rows).
    split; [reflexivity |].
    apply list_elem_of_fmap. exists why. split; [reflexivity |].
    apply elem_of_remove_dups. rewrite list_fmap_id.
    subst rows. apply list_elem_of_omap. exists t. split; [| exact Hwhy].
    apply list_elem_of_filter. auto.
Qed.

Lemma elem_of_failedRows d (f : FailedTransactionSummary) :
  f ∈ failedRows d <->
  (0 < count f)%nat
  /\ count f
     = length (filter (fun t => row_failure_reason t = Some (reason f)
                                /\ row_status t = failed)
                 (transactions d)).
Proof.
  unfold failedRows, group_by.
  set (rows := omap row_failure_reason
                 (filter (fun t => row_status t = failed) (transactions d))).
  assert (Hcount : forall k,
            length (filter (fun r : string => r = k) rows)
            = length (filter (fun t => row_failure_reason t = Some k
                                       /\ row_status t = failed)
                        (transactions d))).
  { intros k. subst rows. rewrite count_by_reason, list_filter_filter.
    reflexivity. }
  assert (Hin : forall k,
            k ∈ rows <->
            (0 < length (filter (fun t => row_failure_reason t = Some k
                                          /\ row_status t = failed)
                           (transactions d)))%nat).
  { intros k. subst rows. rewrite list_elem_of_omap.
    set (fl := filter (fun t => row_failure_reason t = Some k
                                /\ row_status t = failed) (transactions d)).
    split.
    - intros (t & Ht & Hk). apply list_elem_of_filter in Ht as [Hst Ht].
      assert (Ht' : t ∈ fl) by (apply list_elem_of_filter; auto).
      destruct fl; [| simpl; lia].
      apply elem_of_nil in Ht'. contradiction.
    - intros Hlen.
      destruct fl as [| t l] eqn:Hf; [simpl in Hlen; lia |].
      assert (Ht : t ∈ fl) by (rewrite Hf; left).
      apply list_elem_of_filter in Ht as [[Hk Hst] Ht].
      exists t. split; [| exact Hk]. apply list_elem_of_filter. auto. }
  split.
  - intros Hf.
    apply list_elem_of_fmap in Hf as ([k g] & -> & Hg).
    apply list_elem_of_fmap in Hg as (k' & [= <- ->] & Hk). simpl.
    apply (proj1 (elem_of_remove_dups _ _)) in Hk.
    rewrite list_fmap_id in Hk. rewrite Hcount. split; [| reflexivity].
    apply Hin. exact Hk.
  - intros [Hpos Hlen]. destruct f as [why n]. simpl in *.
    apply list_elem_of_fmap.
    exists (why, filter (fun r : string => r = why) rows). split.
    + simpl. rewrite Hcount. congruence.
    + apply list_elem_of_fmap. exists why. split; [reflexivity |].
      apply elem_of_remove_dups. rewrite list_fmap_id. apply Hin. lia.
Qed.

(** X25. A submission that is answered as failed is counted by the next
    report: the failure part then lists its reason, with one more than
    the number of failed rows that carried the reason before. *)
Theorem failed_submission_is_counted
    (data : CreateTransactionData) (tid : string) (d : DB) (why : string) :
  returns_failed (submit data tid d).1 why ->
  {| reason := why;
     count := S (length (filter (fun t => row_failure_reason t = Some why
                                          /\ row_status t = failed)
                           (transactions d))) |}
  ∈ failed_transactions (getSummaryReport (committed (submit data tid d).2)).
Proof.
  intros (t & Hr & Hst & Hwhy).
  destruct (submit_cases data tid d)
    as [(e & He & _) | (row & w & Hr' & Hd & _ & Hw)]; [congruence |].
  rewrite Hr in Hr'. injection Hr' as ->.
  destruct Hw as [(why' & _ & -> & ->) | (_ & -> & _)]; [| discriminate].
  simpl in Hwhy. injection Hwhy as ->.
  unfold getSummaryReport. simpl. apply elem_of_failedRows. simpl.
  split; [lia |]. rewrite Hd. simpl.
  rewrite filter_app, length_app. simpl.
  rewrite filter_cons, decide_True by (simpl; auto). simpl. lia.
Qed.

Lemma failed_submission_is_counted_witness :
  {| reason := "Insufficient funds"; count := 1 |}
  ∈ failed_transactions
      (getSummaryReport
         (committed (submit (mkData withdrawal 800000 (Some 1) None)
                       "tx-1" seed).2)).
Proof.
  apply (failed_submission_is_counted
           (mkData withdrawal 800000 (Some 1) None) "tx-1" seed
           "Insufficient funds").
  eexists. split_and!; reflexivity.
Defined.

End ReportRows.

(** ** [db.transaction] *)

Lemma exec_data_statement {X} (s : Stmt X) (c : Conn) :
  Database.data_statement s -> committed (Store.exec s c).2 = committed c.
Proof. destruct s; simpl; intros H; solve [reflexivity | contradiction]. Qed.

Lemma run_plain {A} (p : Prog A) (c : Conn) :
  Database.plain p -> committed (run p c).2 = committed c.
Proof.
  revert c. induction p as [a | e | X s h IH]; intros c; simpl;
    try reflexivity.
  intros [Hs Hh]. rewrite IH by apply Hh.
  rewrite exec_data_statement by exact Hs. reflexivity.
Qed.

(** X23. [db.transaction] makes the writes of its callback all or
    nothing.  For a callback that leaves beginning and ending the
    transaction to the wrapper: when the callback returns, the wrapper
    returns its result and everything the callback wrote is committed;
    when the callback throws, the wrapper throws the same error and the
    committed database is the one from before the call, whatever the
    callback had written by then. *)
Theorem transaction_commits_all_or_nothing
    {A : Type} (callback : Prog A) (d : DB) :
  Database.plain callback ->
  let inside := run callback (opened d) in
  let r := serve (Database.transaction callback) d in
  match inside.1 with
  | Ok a =>
      r.1 = Ok a /\ committed r.2 = working inside.2
      /\ working r.2 = working inside.2
  | Throw e =>
      r.1 = Throw e /\ committed r.2 = d /\ working r.2 = d
  end.
Proof.
  intros Hplain inside r. subst r. unfold serve, Database.transaction.
  rewrite run_try_catch, run_bind.
  change (run (execute BeginTransaction) (getConnection d))
    with (Ok tt, opened d).
  cbv iota beta. rewrite run_bind. fold inside.
  pose proof (run_plain callback (opened d) Hplain) as Hc. fold inside in Hc.
  destruct inside as [[a | e] c']; simpl in *.
  - auto.
  - rewrite Hc. auto.
Qed.

Lemma transaction_commits_all_or_nothing_witness :
  committed
    (serve (Database.transaction
              (execute (UpdateBalance 500 1) ;;;
               execute (UpdateBalance (-900000) 2) ;;;
               Ret tt)) seed).2
  = seed.
Proof.
  exact (proj1 (proj2
    (transaction_commits_all_or_nothing
       (execute (UpdateBalance 500 1) ;;;
        execute (UpdateBalance (-900000) 2) ;;;
        Ret tt) seed
       ltac:(simpl; repeat split; intros [[] | ?]; simpl; repeat split;
             intros [[] | ?]; simpl; auto)))).
Defined.

(** ** Accounts by number *)

Lemma findByAccountNumber_none_or_stored accountNumber d :
  match AccountService.findByAccountNumber accountNumber d with
  | Some (p, a) =>
      weight_string d (account_number a) = weight_string d accountNumber
      /\ AccountService.findById (Zpos p) d = Some a
  | None =>
      forall p a, accounts d !! p = Some a ->
                  weight_string d (account_number a)
                  <> weight_string d accountNumber
  end.
Proof.
  unfold AccountService.findByAccountNumber.
  destruct (head _) as [[p a] |] eqn:Hh.
  - apply head_Some_elem_of, list_elem_of_filter in Hh as [Hn Hin].
    apply elem_of_map_to_list in Hin. auto.
  - intros p a Ha Hn. apply head_None in Hh.
    assert (Hin : (p, a) ∈ filter
                    (fun pa : positive * Account =>
                       weight_string d (account_number pa.2)
                       = weight_string d accountNumber)
                    (map_to_list (accounts d))).
    { apply list_elem_of_filter. split; [exact Hn |].
      apply elem_of_map_to_list. exact Ha. }
    rewrite Hh in Hin. apply elem_of_nil in Hin. exact Hin.
Qed.

Lemma seed_unique_numbers q1 q2 a1 a2 :
  accounts seed !! q1 = Some a1 -> accounts seed !! q2 = Some a2 ->
  weight_string seed (account_number a1)
  = weight_string seed (account_number a2) ->
  q1 = q2.
Proof.
  unfold seed. simpl. intros H1 H2.
  apply lookup_insert_Some in H1 as [[<- <-] | [_ H1]];
    apply lookup_insert_Some in H2 as [[<- <-] | [_ H2]];
    try apply lookup_singleton_Some in H1 as [<- <-];
    try apply lookup_singleton_Some in H2 as [<- <-];
    vm_compute; intros; congruence.
Defined.

(** X24. Looking an account up by its number and by its id agree, the
    numbers being unique under the collation of the table, as the unique
    key of the schema demands: for an account that [findById] finds,
    [findByAccountNumber] on any text that compares equal to its number
    (the number itself, or the number in another case where the collation
    ignores case) gives back that very account with its id; and the answer
    is null exactly when no account has a number that compares equal. *)
Theorem findByAccountNumber_round_trip (d : DB) :
  (forall q1 q2 a1 a2,
     accounts d !! q1 = Some a1 -> accounts d !! q2 = Some a2 ->
     weight_string d (account_number a1) = weight_string d (account_number a2) ->
     q1 = q2) ->
  (forall p a accountNumber,
     AccountService.findById (Zpos p) d = Some a ->
     weight_string d accountNumber = weight_string d (account_number a) ->
     AccountService.findByAccountNumber accountNumber d = Some (p, a))
  /\ (forall accountNumber,
        AccountService.findByAccountNumber accountNumber d = None <->
        forall p a, accounts d !! p = Some a ->
                    weight_string d (account_number a)
                    <> weight_string d accountNumber).
Proof.
  intros Hunique. split.
  - intros p a accountNumber Ha Hsame.
    unfold AccountService.findById in Ha. simpl in Ha.
    pose proof (findByAccountNumber_none_or_stored accountNumber d) as H.
    destruct (AccountService.findByAccountNumber accountNumber d)
      as [[q b] |].
    + destruct H as [Hn Hb]. unfold AccountService.findById in Hb. simpl in Hb.
      assert (q = p) as -> by (apply (Hunique _ _ _ _ Hb Ha); congruence).
      congruence.
    + exfalso. apply (H p a Ha). congruence.
  - intros accountNumber.
    pose proof (findByAccountNumber_none_or_stored accountNumber d) as H.
    destruct (AccountService.findByAccountNumber accountNumber d)
      as [[q b] |].
    + destruct H as [Hn Hb]. split; [discriminate |]. intros Hnone.
      exfalso. exact (Hnone q b Hb Hn).
    + split; auto.
Qed.

Lemma findByAccountNumber_round_trip_witness :
  AccountService.findByAccountNumber "acc002" seed
  = Some (2%positive, mkAccount "ACC002" 2 50000).
Proof.
  exact (proj1 (findByAccountNumber_round_trip seed seed_unique_numbers)
           2%positive (mkAccount "ACC002" 2 50000) "acc002"
           eq_refl eq_refl).
Defined.

(** ** Two connections: sample runs *)

Lemma race_non_negative_witness :
  non_negative seed
  /\ non_negative
       (Concurrent.store
          (schedule (race REPEATABLE_READ seed (withdraw_800, "tx-1")
                       (withdraw_800, "tx-2")) both_read_first)).
Proof.
  split; [exact seed_non_negative |].
  apply race_non_negative. exact seed_non_negative.
Defined.

Lemma both_pass_the_check_witness :
  let w := schedule (race READ_COMMITTED seed
                       (mkData withdrawal 80000 (Some 1) None, "tx-1")
                       (mkData withdrawal 60000 (Some 1) None, "tx-2"))
             [First; First; Second; Second] in
  (exists k, Concurrent.prog (Concurrent.first w)
             = Do (UpdateBalance (- 80000) 1) k)
  /\ (exists k, Concurrent.prog (Concurrent.second w)
                = Do (UpdateBalance (- 60000) 1) k).
Proof.
  exact (both_pass_the_check READ_COMMITTED seed 1
           (mkAccount "ACC001" 1 100000) 80000 60000 "tx-1" "tx-2"
           eq_refl
           ltac:(simpl; lra) ltac:(vm_compute; discriminate)
           ltac:(simpl; lra) ltac:(vm_compute; discriminate)).
Defined.

(** ** An identifier that is already in the ledger *)

(** X29. If the identifier drawn for a submission is already in the
    ledger, the submission throws a store error whatever the request is,
    and the rollback undoes any balance update made before the insert: the
    database is as it was. *)
Theorem duplicate_id_is_refused
    (data : CreateTransactionData) (tid : string) (d : DB) :
  has_transaction_id (transactions d) tid = true ->
  raises_store_error (submit data tid d).1
  /\ committed (submit data tid d).2 = d.
Proof.
  intros Hdup.
  destruct (submit_cases data tid d)
    as [(e & He & Hd) | (row & w & _ & _ & Hacc & Hw)].
  - destruct (submit_throws_store_error _ _ _ _ He) as [[q ->] _].
    split; [exists q; exact He | exact Hd].
  - exfalso.
    assert (Hrow : row_transaction_id row = tid)
      by (destruct Hw as [(why & _ & -> & _) | (_ & -> & _)]; reflexivity).
    assert (Htx : transactions w = transactions d).
    { destruct Hw as [(why & _ & _ & ->) | (_ & _ & Hrun)]; [reflexivity |].
      apply apply_updates_frame in Hrun. tauto. }
    unfold ledger_accepts in Hacc. rewrite Hrow, Htx, Hdup in Hacc.
    rewrite andb_false_r in Hacc. discriminate.
Qed.

Lemma duplicate_id_is_refused_witness :
  raises_store_error
    (submit (mkData deposit 100 None (Some 2)) "tx-1"
       (after (mkData deposit 2500 None (Some 1)) "tx-1" seed)).1
  /\ committed
       (submit (mkData deposit 100 None (Some 2)) "tx-1"
          (after (mkData deposit 2500 None (Some 1)) "tx-1" seed)).2
     = after (mkData deposit 2500 None (Some 1)) "tx-1" seed.
Proof.
  exact (duplicate_id_is_refused (mkData deposit 100 None (Some 2)) "tx-1"
           (after (mkData deposit 2500 None (Some 1)) "tx-1" seed) eq_refl).
Defined.
